(** * telebot_models: relation-aware model managers over a document store

    A shallow embedding of [telebot_models/models.py].

    The Python program is modelled as state-passing code over a [World] :
    - the Python heap (the [dict] objects held as [document_filter], the
      model instances with their per-instance [__custom_cache__]);
    - the mutable class attributes ([_relation_map] list objects, the
      [manager] attribute the metaclass writes on model classes, the
      accessors [relation_map] attaches with [setattr]);
    - the external document store behind [get_collection] (collections of
      documents, the installed collection getter, a log of the calls made to
      the driver, and a schedule saying which driver calls fail).

    Coroutines are run to completion one after the other: an [await] is a
    sequencing point of the monad [M].  Exceptions are the [Raise] outcome;
    the world reached when an exception is raised is kept, since nothing in
    the program rolls anything back. *)

From stdpp Require Import gmap strings list fin_maps.
From Stdlib Require Import NArith ZArith Ascii.

Local Open Scope string_scope.
Local Open Scope list_scope.

(** ** Values, documents and query filters *)

(** [bson.ObjectId]: twelve bytes, kept as the number they spell. *)
Definition ObjectId := N.

(** The scalar values a field of a record or of a document holds. *)
Inductive value :=
| VNone
| VInt (z : Z)
| VStr (s : string)
| VOid (o : ObjectId).
Arguments VOid o%_N.

#[global] Instance value_eq_dec : EqDecision value.
Proof. solve_decision. Defined.

(** One entry of a filter dict: [{field: v}] or [{field: {'$in': [...]}}]. *)
Inductive cond :=
| CEq (v : value)
| CIn (vs : list value).

#[global] Instance cond_eq_dec : EqDecision cond.
Proof. solve_decision. Defined.

(** A stored document, keyed by alias ([_id] for the identifier). *)
Abbreviation document := (gmap string value).

(** A filter dict as the managers hold it in [document_filter]. *)
Abbreviation pyfilter := (gmap string cond).

(** A positional argument of [find_one]: a scalar or a dict. *)
Inductive pyarg :=
| AVal (v : value)
| ADict (d : pyfilter).

(** References to objects of the Python heap. *)
Definition loc := positive.

(** ** Strings: [str.lower] and [str.replace] on ASCII class names *)

Definition lower_ascii (a : ascii) : ascii :=
  let n := N_of_ascii a in
  if ((65 <=? n) && (n <=? 90))%N then ascii_of_N (n + 32) else a.

Fixpoint lower (s : string) : string :=
  match s with
  | EmptyString => EmptyString
  | String a s' => String (lower_ascii a) (lower s')
  end.

(** [s.replace(old, new)] for a non-empty [old]: occurrences are replaced
    from the left and do not overlap; [skip] counts the characters of a
    matched occurrence still to drop. *)
Fixpoint replace_from (old new : string) (skip : nat) (s : string) : string :=
  match s with
  | EmptyString => EmptyString
  | String a s' =>
      match skip with
      | S k => replace_from old new k s'
      | O =>
          if String.prefix old s
          then new +:+ replace_from old new (String.length old - 1) s'
          else String a (replace_from old new 0 s')
      end
  end.

Definition replace (old new s : string) : string := replace_from old new 0 s.

(** ** [PyObjectId.validate] *)

Definition hex_digit (a : ascii) : option N :=
  let n := N_of_ascii a in
  if ((48 <=? n) && (n <=? 57))%N then Some (n - 48)%N
  else if ((97 <=? n) && (n <=? 102))%N then Some (n - 87)%N
  else if ((65 <=? n) && (n <=? 70))%N then Some (n - 55)%N
  else None.

Fixpoint hex_value (acc : N) (s : string) : option N :=
  match s with
  | EmptyString => Some acc
  | String a s' =>
      match hex_digit a with
      | Some d => hex_value (16 * acc + d)%N s'
      | None => None
      end
  end.

(** [ObjectId.is_valid(value)] followed by [ObjectId(value)]: an ObjectId
    is kept, a string of 24 hexadecimal digits is converted, anything else
    is refused ([ValueError("Invalid objectid")]). *)
Definition PyObjectId_validate (v : value) : option ObjectId :=
  match v with
  | VOid o => Some o
  | VStr s => if Nat.eqb (String.length s) 24 then hex_value 0 s else None
  | _ => None
  end.

(** ** Classes *)

(** A declared field of a model class: its name and, if it has one, its
    default.  Fields are not typed further (validation of field values is
    the schema layer's). *)
Record FieldDecl := { f_name : string; f_default : option value }.

(** Model classes: [Model] and its subclasses (single inheritance). *)
Inductive ModelClass :=
| Model
| ModelSub (name : string) (decls : list FieldDecl) (base : ModelClass).

Definition model_name (c : ModelClass) : string :=
  match c with Model => "Model" | ModelSub n _ _ => n end.

(** The declared fields besides [id], base classes first. *)
Fixpoint model_decls (c : ModelClass) : list FieldDecl :=
  match c with
  | Model => []
  | ModelSub _ ds base => model_decls base ++ ds
  end.

(** What the body of a manager subclass assigns. *)
Record ManagerBody := {
  b_model : option ModelClass;
  b_collection : option string;
  b_relation_map : bool   (* the body has its own [_relation_map = []] *)
}.

(** Manager classes: [BaseModelManager] and its subclasses. *)
Inductive ManagerClass :=
| BaseModelManager
| ManagerSub (name : string) (body : ManagerBody) (base : ManagerClass).

(** [cls.__name__] *)
Definition manager_name (cls : ManagerClass) : string :=
  match cls with BaseModelManager => "BaseModelManager" | ManagerSub n _ _ => n end.

(** [cls.model], looked up along the bases; [BaseModelManager.model = Model]. *)
Fixpoint manager_model (cls : ManagerClass) : ModelClass :=
  match cls with
  | BaseModelManager => Model
  | ManagerSub _ b base =>
      match b_model b with Some m => m | None => manager_model base end
  end.

(** [cls.collection]; [BaseModelManager.collection = '']. *)
Fixpoint manager_collection (cls : ManagerClass) : string :=
  match cls with
  | BaseModelManager => ""
  | ManagerSub _ b base =>
      match b_collection b with Some c => c | None => manager_collection base end
  end.

(** The class whose [__dict__] holds the list object that
    [cls._relation_map] evaluates to: [cls] itself when its body assigns
    [_relation_map], else the nearest base that does.  [BaseModelManager]
    has [_relation_map = []] in its body. *)
Fixpoint relation_map_owner (cls : ManagerClass) : string :=
  match cls with
  | BaseModelManager => "BaseModelManager"
  | ManagerSub n b base =>
      if b_relation_map b then n else relation_map_owner base
  end.

(** An element of a [_relation_map] list:
    [(model_cls, field_name, model_field_name)]. *)
Record Edge := {
  e_model_cls : ModelClass;
  e_field_name : string;
  e_model_field_name : string
}.

(** The three functions [relation_map] attaches with [setattr], with the
    variables each closure captured. *)
Inductive accessor :=
| related_model_set (model_cls : ModelClass) (field_name model_field_name : string)
| by_related_obj (field_name : string)
| obj (cls : ManagerClass) (field_name rel_obj_name : string).

(** ** The world: Python heap, class attributes, document store *)

(** A model instance: its class, its field values by field name ([id] for
    the identifier) and the attributes set on its [__custom_cache__]
    object (each holds [None] or a reference to a model instance). *)
Record instance := {
  i_class : ModelClass;
  i_fields : gmap string value;
  i_cache : gmap string (option loc)
}.

Record Heap := {
  dicts : gmap loc pyfilter;   (* dict objects *)
  objs : gmap loc instance     (* model instances *)
}.

(** Mutable class attributes.  Classes are told apart by name. *)
Record Classes := {
  relation_maps : gmap string (list Edge);     (* list objects, by owning class *)
  model_manager : gmap string ManagerClass;    (* [manager] on model classes *)
  model_attrs : gmap (string * string) accessor;    (* [setattr] on model classes *)
  manager_attrs : gmap (string * string) accessor   (* [setattr] on manager classes *)
}.

(** Calls made to a collection handle, as the driver receives them. *)
Inductive Event :=
| EvInsertOne (h : string) (doc : document)
| EvUpdateOne (h : string) (flt : pyfilter) (set : document)
| EvUpdateMany (h : string) (flt : pyfilter) (set : document)
| EvDeleteOne (h : string) (flt : pyfilter)
| EvDeleteMany (h : string) (flt : pyfilter)
| EvFind (h : string) (flt : pyfilter)
| EvFindOne (h : string) (flt : pyfilter) (rest : list pyarg)
| EvCount (h : string) (flt : pyfilter).

Inductive exn :=
| ValueError (flt : pyfilter)          (* 'Document not found by filter ...' *)
| NotImplementedError (collection : string)
| GetterError (collection : string)    (* raised by an installed getter *)
| AttributeError (name : string)
| ValidationError                      (* pydantic: the document does not parse *)
| PyMongoError                         (* a driver call failed *)
| DuplicateKeyError
| DanglingReference.                   (* no Python program reaches this *)

(** The external collaborator: the function installed by
    [set_collection_getter] (none at import), the collections by handle,
    the log of driver calls, and for each coming driver call whether it
    fails ([true]); past the end of the schedule calls succeed. *)
Record Store := {
  getter : option (string -> exn + string);
  db : gmap string (list document);
  calls : list Event;
  faults : list bool
}.

Record World := {
  heap : Heap;
  classes : Classes;
  store : Store;
  next_oid : N     (* what the next [ObjectId()] returns *)
}.

Definition with_heap (hp : Heap) (w : World) : World :=
  {| heap := hp; classes := classes w; store := store w; next_oid := next_oid w |}.
Definition with_classes (c : Classes) (w : World) : World :=
  {| heap := heap w; classes := c; store := store w; next_oid := next_oid w |}.
Definition with_store (s : Store) (w : World) : World :=
  {| heap := heap w; classes := classes w; store := s; next_oid := next_oid w |}.
Definition with_next_oid (n : N) (w : World) : World :=
  {| heap := heap w; classes := classes w; store := store w; next_oid := n |}.

Definition with_dicts (d : gmap loc pyfilter) (hp : Heap) : Heap :=
  {| dicts := d; objs := objs hp |}.
Definition with_objs (o : gmap loc instance) (hp : Heap) : Heap :=
  {| dicts := dicts hp; objs := o |}.

Definition with_db (d : gmap string (list document)) (s : Store) : Store :=
  {| getter := getter s; db := d; calls := calls s; faults := faults s |}.
Definition with_getter (g : option (string -> exn + string)) (s : Store) : Store :=
  {| getter := g; db := db s; calls := calls s; faults := faults s |}.

(** The documents of a collection; a collection never written is empty. *)
Definition collection_docs (w : World) (h : string) : list document :=
  default [] (db (store w) !! h).

(** ** The monad of the embedding *)

Inductive outcome (A : Type) :=
| Ok (a : A)
| Raise (e : exn)
| OutOfFuel.
Arguments Ok {A} a.
Arguments Raise {A} e.
Arguments OutOfFuel {A}.

Definition M (A : Type) : Type := World -> outcome A * World.

Definition ret {A} (a : A) : M A := fun w => (Ok a, w).
Definition raise {A} (e : exn) : M A := fun w => (Raise e, w).
Definition out_of_fuel {A} : M A := fun w => (OutOfFuel, w).

Definition bind {A B} (m : M A) (k : A -> M B) : M B :=
  fun w =>
    match m w with
    | (Ok a, w') => k a w'
    | (Raise e, w') => (Raise e, w')
    | (OutOfFuel, w') => (OutOfFuel, w')
    end.

Notation "x <- c1 ;; c2" := (bind c1 (fun x => c2))
  (at level 100, c1 at next level, right associativity).
Notation "c1 ;; c2" := (bind c1 (fun _ => c2))
  (at level 100, right associativity).

Definition get : M World := fun w => (Ok w, w).
Definition modify (f : World -> World) : M unit := fun w => (Ok tt, f w).

(** [for x in l: body(x)] *)
Fixpoint for_each {A} (l : list A) (body : A -> M unit) : M unit :=
  match l with
  | [] => ret tt
  | x :: l' => body x ;; for_each l' body
  end.

(** [[f(x) for x in l]] *)
Fixpoint map_M {A B} (f : A -> M B) (l : list A) : M (list B) :=
  match l with
  | [] => ret []
  | x :: l' => y <- f x ;; ys <- map_M f l' ;; ret (y :: ys)
  end.

(** ** Heap operations *)

Definition alloc_dict (d : pyfilter) : M loc :=
  fun w =>
    let l := fresh (dom (dicts (heap w))) in
    (Ok l, with_heap (with_dicts (<[l := d]> (dicts (heap w))) (heap w)) w).

Definition read_dict (l : loc) : M pyfilter :=
  fun w =>
    match dicts (heap w) !! l with
    | Some d => (Ok d, w)
    | None => (Raise DanglingReference, w)
    end.

(** [d.update({k: c})] on the dict object at [l] *)
Definition dict_update (l : loc) (k : string) (c : cond) : M unit :=
  d <- read_dict l ;;
  modify (fun w => with_heap (with_dicts (<[l := <[k := c]> d]> (dicts (heap w))) (heap w)) w).

Definition alloc_obj (i : instance) : M loc :=
  fun w =>
    let l := fresh (dom (objs (heap w))) in
    (Ok l, with_heap (with_objs (<[l := i]> (objs (heap w))) (heap w)) w).

Definition read_obj (l : loc) : M instance :=
  fun w =>
    match objs (heap w) !! l with
    | Some i => (Ok i, w)
    | None => (Raise DanglingReference, w)
    end.

Definition write_obj (l : loc) (i : instance) : M unit :=
  modify (fun w => with_heap (with_objs (<[l := i]> (objs (heap w))) (heap w)) w).

(** [getattr(model, name)] for a field of the instance *)
Definition getattr (model : loc) (name : string) : M value :=
  i <- read_obj model ;;
  match i_fields i !! name with
  | Some v => ret v
  | None => raise (AttributeError name)
  end.

(** [ObjectId()] *)
Definition new_ObjectId : M ObjectId :=
  fun w => (Ok (next_oid w), with_next_oid (next_oid w + 1)%N w).

(** ** The collection handle (the driver's surface used by the managers)

    Filters are matched field by field; a missing field reads as [None].
    Every call is logged when it is issued and then fails or succeeds as
    the schedule says. *)

Definition cond_holds (c : cond) (field : option value) : bool :=
  match c with
  | CEq v => bool_decide (default VNone field = v)
  | CIn vs => bool_decide (default VNone field ∈ vs)
  end.

Definition matches (flt : pyfilter) (d : document) : bool :=
  bool_decide (map_Forall (fun k c => cond_holds c (d !! k) = true) flt).

Record InsertOneResult := { inserted_id : value }.
Record UpdateResult := { matched_count : nat; modified_count : nat }.
Record DeleteResult := { deleted_count : nat }.

Definition driver_call (ev : Event) : M unit :=
  fun w =>
    let s := store w in
    let s' := {| getter := getter s; db := db s;
                 calls := calls s ++ [ev]; faults := tail (faults s) |} in
    match faults s with
    | true :: _ => (Raise PyMongoError, with_store s' w)
    | _ => (Ok tt, with_store s' w)
    end.

Definition set_docs (h : string) (docs : list document) : M unit :=
  modify (fun w => with_store (with_db (<[h := docs]> (db (store w))) (store w)) w).

Definition get_docs (h : string) : M (list document) :=
  fun w => (Ok (collection_docs w h), w).

Fixpoint update_first (p : document -> bool) (f : document -> document)
    (l : list document) : list document :=
  match l with
  | [] => []
  | d :: l' => if p d then f d :: l' else d :: update_first p f l'
  end.

Fixpoint delete_first (p : document -> bool) (l : list document) : list document :=
  match l with
  | [] => []
  | d :: l' => if p d then l' else d :: delete_first p l'
  end.

(** [insert_one(document)]: the driver adds [_id] to the caller's dict
    when it has none; the dict as it is afterwards is returned with the
    result. *)
Definition coll_insert_one (h : string) (doc : document) : M (document * InsertOneResult) :=
  doc' <- match doc !! "_id" with
          | Some _ => ret doc
          | None => o <- new_ObjectId ;; ret (<["_id" := VOid o]> doc)
          end ;;
  driver_call (EvInsertOne h doc') ;;
  docs <- get_docs h ;;
  if existsb (fun d => bool_decide (d !! "_id" = doc' !! "_id")) docs
  then raise DuplicateKeyError
  else set_docs h (docs ++ [doc']) ;;
       ret (doc', {| inserted_id := default VNone (doc' !! "_id") |}).

(** [update_one(filter, {'$set': set})] *)
Definition coll_update_one (h : string) (flt : pyfilter) (set : document) : M UpdateResult :=
  driver_call (EvUpdateOne h flt set) ;;
  docs <- get_docs h ;;
  match List.find (matches flt) docs with
  | None => ret {| matched_count := 0; modified_count := 0 |}
  | Some d =>
      set_docs h (update_first (matches flt) (fun d => set ∪ d) docs) ;;
      ret {| matched_count := 1;
             modified_count := if decide (set ∪ d = d) then 0 else 1 |}
  end.

(** [update_many(filter, {'$set': set})] *)
Definition coll_update_many (h : string) (flt : pyfilter) (set : document) : M UpdateResult :=
  driver_call (EvUpdateMany h flt set) ;;
  docs <- get_docs h ;;
  set_docs h (map (fun d => if matches flt d then set ∪ d else d) docs) ;;
  ret {| matched_count := length (List.filter (matches flt) docs);
         modified_count :=
           length (List.filter (fun d => matches flt d && negb (bool_decide (set ∪ d = d))) docs) |}.

Definition coll_delete_one (h : string) (flt : pyfilter) : M DeleteResult :=
  driver_call (EvDeleteOne h flt) ;;
  docs <- get_docs h ;;
  match List.find (matches flt) docs with
  | None => ret {| deleted_count := 0 |}
  | Some _ =>
      set_docs h (delete_first (matches flt) docs) ;;
      ret {| deleted_count := 1 |}
  end.

Definition coll_delete_many (h : string) (flt : pyfilter) : M DeleteResult :=
  driver_call (EvDeleteMany h flt) ;;
  docs <- get_docs h ;;
  set_docs h (List.filter (fun d => negb (matches flt d)) docs) ;;
  ret {| deleted_count := length (List.filter (matches flt) docs) |}.

(** [find(filter).to_list(None)] *)
Definition coll_find (h : string) (flt : pyfilter) : M (list document) :=
  driver_call (EvFind h flt) ;;
  docs <- get_docs h ;;
  ret (List.filter (matches flt) docs).

(** [find_one(filter, *rest)]; the further arguments (projection, ...) are
    handed to the driver and not interpreted here. *)
Definition coll_find_one (h : string) (flt : pyfilter) (rest : list pyarg) : M (option document) :=
  driver_call (EvFindOne h flt rest) ;;
  docs <- get_docs h ;;
  ret (List.find (matches flt) docs).

Definition coll_count_documents (h : string) (flt : pyfilter) : M nat :=
  driver_call (EvCount h flt) ;;
  docs <- get_docs h ;;
  ret (length (List.filter (matches flt) docs)).

(** ** [CollectionGetter] *)

(** [CollectionGetter.get_collection(collection)]: as imported it raises
    [NotImplementedError]; [set_collection_getter] replaces it. *)
Definition CollectionGetter_get_collection (collection : string) : M string :=
  w <- get ;;
  match getter (store w) with
  | None => raise (NotImplementedError collection)
  | Some func =>
      match func collection with
      | inl e => raise e
      | inr h => ret h
      end
  end.

Definition set_collection_getter (func : string -> exn + string) : M unit :=
  modify (fun w => with_store (with_getter (Some func) (store w)) w).

(** ** pydantic: [parse_obj] and [dict] *)

(** The declared fields read from a document: the document's value, else
    the default, else the document does not validate.  Where a name is
    declared twice the later declaration (the subclass) decides. *)
Fixpoint parse_fields (ds : list FieldDecl) (doc : document) : option (gmap string value) :=
  match ds with
  | [] => Some ∅
  | d :: ds' =>
      match parse_fields ds' doc with
      | None => None
      | Some r =>
          match r !! f_name d with
          | Some _ => Some r
          | None =>
              match doc !! f_name d, f_default d with
              | Some v, _ => Some (<[f_name d := v]> r)
              | None, Some v => Some (<[f_name d := v]> r)
              | None, None => None
              end
          end
      end
  end.

(** [model_cls.parse_obj(doc)]: [id] is populated by alias [_id] or by
    name, validated by [PyObjectId.validate], and made by the default
    factory when the document has neither. *)
Definition parse_obj (c : ModelClass) (doc : document) : M loc :=
  id <- match (match doc !! "_id" with Some v => Some v | None => doc !! "id" end) with
        | Some v =>
            match PyObjectId_validate v with
            | Some o => ret o
            | None => raise ValidationError
            end
        | None => new_ObjectId
        end ;;
  match parse_fields (model_decls c) doc with
  | Some fs => alloc_obj {| i_class := c; i_fields := <["id" := VOid id]> fs; i_cache := ∅ |}
  | None => raise ValidationError
  end.

(** Whether [dict(include=..., exclude=...)] keeps the field [name]. *)
Definition selected (include exclude : option (gset string)) (name : string) : bool :=
  match include with Some inc => bool_decide (name ∈ inc) | None => true end
  && match exclude with Some exc => bool_decide (name ∉ exc) | None => true end.

(** [model.dict(by_alias=True, exclude=exclude, include=include)]: the
    selected fields, with [id] under its alias [_id]. *)
Definition model_dict (i : instance) (include exclude : option (gset string)) : document :=
  let fs := base.filter (fun kv => selected include exclude kv.1 = true) (i_fields i) in
  match fs !! "id" with
  | Some v => <["_id" := v]> (base.delete "id" fs)
  | None => fs
  end.

(** [model.id = v] and other field assignments *)
Definition setattr_field (model : loc) (name : string) (v : value) : M unit :=
  i <- read_obj model ;;
  write_obj model {| i_class := i_class i;
                     i_fields := <[name := v]> (i_fields i);
                     i_cache := i_cache i |}.

(** ** Class attributes *)

(** [c.manager] for a model class [c], looked up along its bases. *)
Fixpoint class_manager (tbl : gmap string ManagerClass) (c : ModelClass) : option ManagerClass :=
  match tbl !! model_name c with
  | Some m => Some m
  | None =>
      match c with
      | Model => None
      | ModelSub _ _ base => class_manager tbl base
      end
  end.

Definition manager_of (c : ModelClass) : M ManagerClass :=
  w <- get ;;
  match class_manager (model_manager (classes w)) c with
  | Some m => ret m
  | None => raise (AttributeError "manager")
  end.

(** An attribute attached to a model class, looked up along its bases. *)
Fixpoint model_attr (tbl : gmap (string * string) accessor) (c : ModelClass)
    (name : string) : option accessor :=
  match tbl !! (model_name c, name) with
  | Some a => Some a
  | None =>
      match c with
      | Model => None
      | ModelSub _ _ base => model_attr tbl base name
      end
  end.

(** The list [cls._relation_map] evaluates to. *)
Definition relation_map_of (w : World) (cls : ManagerClass) : list Edge :=
  default [] (relation_maps (classes w) !! relation_map_owner cls).

Definition with_relation_maps (r : gmap string (list Edge)) (c : Classes) : Classes :=
  {| relation_maps := r; model_manager := model_manager c;
     model_attrs := model_attrs c; manager_attrs := manager_attrs c |}.
Definition with_model_manager (r : gmap string ManagerClass) (c : Classes) : Classes :=
  {| relation_maps := relation_maps c; model_manager := r;
     model_attrs := model_attrs c; manager_attrs := manager_attrs c |}.
Definition with_model_attrs (r : gmap (string * string) accessor) (c : Classes) : Classes :=
  {| relation_maps := relation_maps c; model_manager := model_manager c;
     model_attrs := r; manager_attrs := manager_attrs c |}.
Definition with_manager_attrs (r : gmap (string * string) accessor) (c : Classes) : Classes :=
  {| relation_maps := relation_maps c; model_manager := model_manager c;
     model_attrs := model_attrs c; manager_attrs := r |}.

(** [ModelManagerMeta.__new__] on the class statement of [cls]: the body
    is evaluated (a [_relation_map = []] in it makes a new list) and then
    [manager.model.manager = manager]. *)
Definition ModelManagerMeta_new (cls : ManagerClass) : M ManagerClass :=
  modify (fun w =>
    let c := classes w in
    let c := match cls with
             | ManagerSub n b _ =>
                 if b_relation_map b
                 then with_relation_maps (<[n := []]> (relation_maps c)) c
                 else c
             | BaseModelManager =>
                 with_relation_maps (<["BaseModelManager" := []]> (relation_maps c)) c
             end in
    with_classes
      (with_model_manager (<[model_name (manager_model cls) := cls]> (model_manager c)) c) w) ;;
  ret cls.

(** ** [BaseModelManager] *)

(** A manager instance: its class and the dict object it holds as
    [self.document_filter]. *)
Record manager := { m_class : ManagerClass; document_filter : loc }.

(** The selection [insert] and [update] compute from their keyword
    arguments before calling [model.dict]:

      if include: exclude = None
      else: exclude = exclude or set(); exclude.add('id')   *)
Definition effective_exclude (include exclude : option (gset string)) : option (gset string) :=
  match include with
  | Some inc =>
      if decide (inc = ∅)
      then Some (default ∅ exclude ∪ {["id"]})
      else None
  | None => Some (default ∅ exclude ∪ {["id"]})
  end.

Module Manager.

(** [cls.get_collection()]: [return await
    CollectionGetter.get_collection(cls.collection)], taken as the call
    of the getter run to completion. *)
Definition get_collection (cls : ManagerClass) : M string :=
  CollectionGetter_get_collection (manager_collection cls).

(** [cls(document_filter)]: [self.document_filter = document_filter or {}]
    keeps the caller's dict object when it is not empty. *)
Definition init (cls : ManagerClass) (document_filter : option loc) : M manager :=
  match document_filter with
  | Some l =>
      d <- read_dict l ;;
      if decide (d = ∅)
      then l' <- alloc_dict ∅ ;; ret {| m_class := cls; document_filter := l' |}
      else ret {| m_class := cls; document_filter := l |}
  | None =>
      l' <- alloc_dict ∅ ;; ret {| m_class := cls; document_filter := l' |}
  end.

Definition insert (cls : ManagerClass) (model : loc)
    (include exclude : option (gset string)) : M InsertOneResult :=
  let exclude := effective_exclude include exclude in
  i <- read_obj model ;;
  let document := model_dict i include exclude in
  h <- get_collection cls ;;
  r <- coll_insert_one h document ;;
  setattr_field model "id" (default VNone (r.1 !! "_id")) ;;
  ret r.2.

Definition update (cls : ManagerClass) (model : loc)
    (include exclude : option (gset string)) : M UpdateResult :=
  let exclude := effective_exclude include exclude in
  h <- get_collection cls ;;
  id <- getattr model "id" ;;
  i <- read_obj model ;;
  coll_update_one h {[ "_id" := CEq id ]} (model_dict i include exclude).

Definition update_many (self : manager) (set : document) : M UpdateResult :=
  h <- get_collection (m_class self) ;;
  flt <- read_dict (document_filter self) ;;
  coll_update_many h flt set.

Definition delete_many (self : manager) : M DeleteResult :=
  h <- get_collection (m_class self) ;;
  flt <- read_dict (document_filter self) ;;
  coll_delete_many h flt.

(** [self.__class__({**self.document_filter, **document_filter})]; the
    argument dict is only read. *)
Definition filter (self : manager) (narrowing : option pyfilter) : M manager :=
  let narrowing := default ∅ narrowing in
  d <- read_dict (document_filter self) ;;
  l <- alloc_dict (narrowing ∪ d) ;;
  init (m_class self) (Some l).

Definition find_all (self : manager) : M (list loc) :=
  h <- get_collection (m_class self) ;;
  flt <- read_dict (document_filter self) ;;
  docs <- coll_find h flt ;;
  map_M (parse_obj (manager_model (m_class self))) docs.

Definition find_one (self : manager) (args : list pyarg) (raise_exception : bool)
    : M (option loc) :=
  args <- match args with
          | AVal (VOid i) :: rest =>
              dict_update (document_filter self) "_id" (CEq (VOid i)) ;;
              ret rest
          | _ => ret args
          end ;;
  h <- get_collection (m_class self) ;;
  flt <- read_dict (document_filter self) ;;
  document <- coll_find_one h flt args ;;
  match document with
  | None =>
      if raise_exception then raise (ValueError flt) else ret None
  | Some d =>
      o <- parse_obj (manager_model (m_class self)) d ;;
      ret (Some o)
  end.

Definition count (self : manager) : M nat :=
  h <- get_collection (m_class self) ;;
  flt <- read_dict (document_filter self) ;;
  coll_count_documents h flt.

(** [await _cls.manager({field_name: getattr(model, model_field_name)}).find_all()]
    for an element of [cls._relation_map] *)
Definition related_objs (model : loc) (e : Edge) : M (list loc) :=
  mgr_cls <- manager_of (e_model_cls e) ;;
  v <- getattr model (e_model_field_name e) ;;
  d <- alloc_dict {[ e_field_name e := CEq v ]} ;;
  m <- init mgr_cls (Some d) ;;
  find_all m.

(** One turn of the loop over [cls._relation_map] in [delete], given
    what [obj.delete()] does. *)
Definition cascade_edge (obj_delete : loc -> M unit) (model : loc) (e : Edge) : M unit :=
  objs <- related_objs model e ;;
  for_each objs obj_delete.

(** The last statement of [delete]:
    [return await cls.get_collection().delete_one({'_id': model.id})] *)
Definition delete_document (cls : ManagerClass) (model : loc) : M DeleteResult :=
  h <- get_collection cls ;;
  id <- getattr model "id" ;;
  coll_delete_one h {[ "_id" := CEq id ]}.

(** [cls.delete(model)].  The recursion through [obj.delete()] is not
    bounded by the program; [fuel] bounds its depth here. *)
Fixpoint delete (fuel : nat) (cls : ManagerClass) (model : loc) : M DeleteResult :=
  match fuel with
  | O => out_of_fuel
  | S fuel' =>
      w <- get ;;
      for_each (relation_map_of w cls)
        (cascade_edge
           (fun o =>
              (* Model.delete: await self.manager.delete(self) *)
              i <- read_obj o ;;
              mgr <- manager_of (i_class i) ;;
              delete fuel' mgr o ;;
              ret tt)
           model) ;;
      delete_document cls model
  end.

(** [cls.relation_map(field_name, model_field_name)(model_cls)] *)
Definition relation_map (cls : ManagerClass) (field_name model_field_name : string)
    (model_cls : ModelClass) : M ModelClass :=
  modify (fun w =>
    let c := classes w in
    with_classes
      (with_relation_maps
         (<[relation_map_owner cls :=
              (relation_map_of w cls
               ++ [{| e_model_cls := model_cls; e_field_name := field_name;
                      e_model_field_name := model_field_name |}])%list]>
            (relation_maps c)) c) w) ;;
  let rel_obj_name := lower (replace "ModelManager" "" (manager_name cls)) in
  modify (fun w =>
    let c := classes w in
    with_classes
      (with_model_attrs
         (<[(model_name (manager_model cls), lower (model_name model_cls) +:+ "_set") :=
              related_model_set model_cls field_name model_field_name]>
            (model_attrs c)) c) w) ;;
  child_mgr <- manager_of model_cls ;;
  modify (fun w =>
    let c := classes w in
    with_classes
      (with_manager_attrs
         (<[(manager_name child_mgr, "by_" +:+ rel_obj_name) := by_related_obj field_name]>
            (manager_attrs c)) c) w) ;;
  modify (fun w =>
    let c := classes w in
    with_classes
      (with_model_attrs
         (<[(model_name model_cls, rel_obj_name) := obj cls field_name rel_obj_name]>
            (model_attrs c)) c) w) ;;
  ret model_cls.

End Manager.

(** ** [Model] *)

(** [Model.delete]: [await self.manager.delete(self)] *)
Definition Model_delete (fuel : nat) (self : loc) : M unit :=
  i <- read_obj self ;;
  mgr <- manager_of (i_class i) ;;
  Manager.delete fuel mgr self ;;
  ret tt.

Definition Model_insert (self : loc) (include exclude : option (gset string)) : M unit :=
  i <- read_obj self ;;
  mgr <- manager_of (i_class i) ;;
  Manager.insert mgr self include exclude ;;
  ret tt.

Definition Model_update (self : loc) (include exclude : option (gset string)) : M unit :=
  i <- read_obj self ;;
  mgr <- manager_of (i_class i) ;;
  Manager.update mgr self include exclude ;;
  ret tt.

(** ** The generated accessors *)

(** [related_model_set(self)] *)
Definition call_related_model_set (model_cls : ModelClass)
    (field_name model_field_name : string) (self : loc) : M manager :=
  mgr_cls <- manager_of model_cls ;;
  v <- getattr self model_field_name ;;
  d <- alloc_dict {[ field_name := CEq v ]} ;;
  Manager.init mgr_cls (Some d).

(** [by_related_obj(self, obj_id)] *)
Definition call_by_related_obj (field_name : string) (self : manager)
    (obj_id : value + list value) : M manager :=
  match obj_id with
  | inr ids => Manager.filter self (Some {[ field_name := CIn ids ]})
  | inl v => Manager.filter self (Some {[ field_name := CEq v ]})
  end.

Definition cached_key (rel_obj_name : string) : string :=
  "__cached_" +:+ rel_obj_name +:+ "__".

Definition set_cache (self : loc) (key : string) (v : option loc) : M unit :=
  i <- read_obj self ;;
  write_obj self {| i_class := i_class i; i_fields := i_fields i;
                    i_cache := <[key := v]> (i_cache i) |}.

(** [getattr(self.__custom_cache__, key, None)] *)
Definition get_cache (self : loc) (key : string) : M (option loc) :=
  i <- read_obj self ;;
  ret (default None (i_cache i !! key)).

(** [obj(self)], the reverse accessor *)
Definition call_obj (cls : ManagerClass) (field_name rel_obj_name : string)
    (self : loc) : M (option loc) :=
  let __cached_key__ := cached_key rel_obj_name in
  c <- get_cache self __cached_key__ ;;
  match c with
  | None =>
      m <- Manager.init cls None ;;
      v <- getattr self field_name ;;
      r <- Manager.find_one m [AVal v] true ;;
      set_cache self __cached_key__ r
  | Some _ => ret tt
  end ;;
  i <- read_obj self ;;
  match i_cache i !! __cached_key__ with
  | Some r => ret r
  | None => raise (AttributeError __cached_key__)
  end.

(** [await c.R()]: the attribute [R] found on the class of [c] is called
    when it is a reverse accessor. *)
Definition call_reverse (self : loc) (R : string) : M (option loc) :=
  i <- read_obj self ;;
  w <- get ;;
  match model_attr (model_attrs (classes w)) (i_class i) R with
  | Some (obj cls field_name rel_obj_name) => call_obj cls field_name rel_obj_name self
  | _ => raise (AttributeError R)
  end.

(** ** The world after [import telebot_models.models] *)

Definition imported : World :=
  {| heap := {| dicts := ∅; objs := ∅ |};
     classes := {| relation_maps := {[ "BaseModelManager" := [] ]};
                   model_manager := {[ "Model" := BaseModelManager ]};
                   model_attrs := ∅; manager_attrs := ∅ |};
     store := {| getter := None; db := ∅; calls := []; faults := [] |};
     next_oid := 1 |}.

(** ** A small application, used to run the definitions

    Users own messages, messages own attachments; chats stand apart.  The
    manager classes are written the usual way, without a [_relation_map]
    of their own. *)
Module App.

Definition User : ModelClass :=
  ModelSub "User" [{| f_name := "name"; f_default := None |}] Model.
Definition Message : ModelClass :=
  ModelSub "Message" [{| f_name := "user_id"; f_default := None |};
                      {| f_name := "text"; f_default := Some (VStr "") |}] Model.
Definition Attachment : ModelClass :=
  ModelSub "Attachment" [{| f_name := "message_id"; f_default := None |}] Model.
Definition Chat : ModelClass :=
  ModelSub "Chat" [{| f_name := "title"; f_default := None |}] Model.

Definition body (m : ModelClass) (c : string) : ManagerBody :=
  {| b_model := Some m; b_collection := Some c; b_relation_map := false |}.

Definition UserModelManager : ManagerClass :=
  ManagerSub "UserModelManager" (body User "users") BaseModelManager.
Definition MessageModelManager : ManagerClass :=
  ManagerSub "MessageModelManager" (body Message "messages") BaseModelManager.
Definition AttachmentModelManager : ManagerClass :=
  ManagerSub "AttachmentModelManager" (body Attachment "attachments") BaseModelManager.
Definition ChatModelManager : ManagerClass :=
  ManagerSub "ChatModelManager" (body Chat "chats") BaseModelManager.

(** The world an outcome leaves, and the outcome itself. *)
Definition exec {A} (m : M A) (w : World) : World := (m w).2.
Definition result {A} (m : M A) (w : World) : outcome A := (m w).1.

(** The class statements, with the collection getter of a test set-up:
    every collection name is its own handle. *)
Definition declared : World :=
  exec (ModelManagerMeta_new UserModelManager ;;
        ModelManagerMeta_new MessageModelManager ;;
        ModelManagerMeta_new AttachmentModelManager ;;
        ModelManagerMeta_new ChatModelManager ;;
        set_collection_getter inr) imported.

(** [UserModelManager.relation_map('user_id', 'id')(Message)] and
    [MessageModelManager.relation_map('message_id', 'id')(Attachment)] *)
Definition registered : World :=
  exec (Manager.relation_map UserModelManager "user_id" "id" Message ;;
        Manager.relation_map MessageModelManager "message_id" "id" Attachment) declared.

Definition doc (l : list (string * value)) : document := list_to_map l.

Definition with_collections (d : gmap string (list document)) (w : World) : World :=
  with_store (with_db d (store w)) w.

Definition with_faults (f : list bool) (w : World) : World :=
  with_store {| getter := getter (store w); db := db (store w);
                calls := calls (store w); faults := f |} w.

(** A user [P] (id 101) with messages [C1] (201) and [C2] (202), [C2]
    with an attachment [G1] (301), and a chat (401). *)
Definition collections : gmap string (list document) :=
  {[ "users" := [doc [("_id", VOid 101); ("name", VStr "P")]];
     "messages" := [doc [("_id", VOid 201); ("user_id", VOid 101); ("text", VStr "C1")];
                    doc [("_id", VOid 202); ("user_id", VOid 101); ("text", VStr "C2")]];
     "attachments" := [doc [("_id", VOid 301); ("message_id", VOid 202)]];
     "chats" := [doc [("_id", VOid 401); ("title", VStr "general")]] ]}.

Definition populated : World := with_collections collections registered.

(** [users = UserModelManager()] in the populated world. *)
Definition users : manager :=
  {| m_class := UserModelManager; document_filter := 1%positive |}.
Definition session : World := exec (Manager.init UserModelManager None) populated.

(** A user record made in memory and not stored yet. *)
Definition new_user : instance :=
  {| i_class := User;
     i_fields := {[ "id" := VOid 7; "name" := VStr "x" ]};
     i_cache := ∅ |}.
Definition drafting : World := exec (alloc_obj new_user) populated.

(** The user [P] and the message [C1] as records in memory (in worlds of
    their own, each at the first free reference). *)
Definition user_P : instance :=
  {| i_class := User;
     i_fields := {[ "id" := VOid 101; "name" := VStr "P" ]};
     i_cache := ∅ |}.
Definition loaded : World := exec (alloc_obj user_P) populated.

Definition message_C1 : instance :=
  {| i_class := Message;
     i_fields := {[ "id" := VOid 201; "user_id" := VOid 101; "text" := VStr "C1" ]};
     i_cache := ∅ |}.
Definition reading : World := exec (alloc_obj message_C1) populated.

(** A message whose user is not in the store. *)
Definition orphan : instance :=
  {| i_class := Message;
     i_fields := {[ "id" := VOid 777; "user_id" := VOid 999; "text" := VStr "?" ]};
     i_cache := ∅ |}.
Definition orphaned : World := exec (alloc_obj orphan) populated.

(** The chat as a record in memory. *)
Definition general : instance :=
  {| i_class := Chat;
     i_fields := {[ "id" := VOid 401; "title" := VStr "general" ]};
     i_cache := ∅ |}.
Definition chatting : World := exec (alloc_obj general) populated.

(** [P] loaded, and the tenth driver call from now on fails: when [P] is
    deleted, that is the [delete_one] of [C2]. *)
Definition failing : World := with_faults (replicate 9 false ++ [true]) loaded.

Definition user_messages : Edge :=
  {| e_model_cls := Message; e_field_name := "user_id"; e_model_field_name := "id" |}.
Definition message_attachments : Edge :=
  {| e_model_cls := Attachment; e_field_name := "message_id"; e_model_field_name := "id" |}.

(** The worlds the failing deletion of [P] goes through: the messages of
    [P] fetched (as the records 2 and 3), then [C1] deleted, then the
    deletion of [C2] failed. *)
Definition fetched : World := exec (Manager.related_objs 1%positive user_messages) failing.
Definition first_deleted : World := exec (Model_delete 3 2%positive) fetched.
Definition second_failed : World := exec (Model_delete 3 3%positive) first_deleted.

End App.

(** ** Vocabulary of the statements *)

(** The driver calls made so far. *)
Definition log (w : World) : list Event := calls (store w).

(** [cls.get_collection()] returns the handle [h]. *)
Definition resolves (w : World) (cls : ManagerClass) (h : string) : Prop :=
  exists func, getter (store w) = Some func /\ func (manager_collection cls) = inr h.

(** The next driver call is not scheduled to fail. *)
Definition next_call_succeeds (w : World) : Prop :=
  head (faults (store w)) <> Some true.

(** The standing filter [find_one] hands to the driver: the receiver's
    dict [d], narrowed by the identifier when the first argument is one. *)
Definition narrowed (d : pyfilter) (args : list pyarg) : pyfilter :=
  match args with
  | AVal (VOid i) :: _ => <["_id" := CEq (VOid i)]> d
  | _ => d
  end.

(** The spec's merge of two predicates over disjoint keys: the entries
    of both. *)
Definition merge (a b : pyfilter) : pyfilter := a ∪ b.

(** The key a field goes by in a document ([by_alias=True]). *)
Definition alias (name : string) : string :=
  if decide (name = "id") then "_id" else name.

(** The [exclude] handed to [model.dict] as the spec words it: ignored
    when [include] is given, else the caller's, which defaults to the
    identifier field. *)
Definition spec_exclude (include exclude : option (gset string)) : option (gset string) :=
  match include with
  | Some _ => None
  | None => Some (default {["id"]} exclude)
  end.

(** The fields [insert] and [update] keep: those of [include] when it is
    given, else all but those of [exclude] and the identifier field. *)
Definition kept (include exclude : option (gset string)) (name : string) : Prop :=
  match include with
  | Some inc => name ∈ inc
  | None => (name ∉ default ∅ exclude) /\ name <> "id"
  end.

(** The document [insert_one] stores for the dict it is given. *)
Definition with_assigned_id (doc : document) (fresh : ObjectId) : document :=
  match doc !! "_id" with
  | Some _ => doc
  | None => <["_id" := VOid fresh]> doc
  end.

(** The record after [model.id = v]. *)
Definition with_id (i : instance) (v : value) : instance :=
  {| i_class := i_class i; i_fields := <["id" := v]> (i_fields i); i_cache := i_cache i |}.

(** What is left of the arguments of [find_one] once the identifier is
    consumed. *)
Definition rest_args (args : list pyarg) : list pyarg :=
  match args with
  | AVal (VOid _) :: rest => rest
  | _ => args
  end.

(** How the world may change while a record is deleted: driver calls are
    only added to the log, documents are only removed, and the class
    attributes, the collection getter and the objects that exist are left
    as they are. *)
Record evolves (w w' : World) : Prop := {
  ev_log : log w `prefix_of` log w';
  ev_docs : forall h, collection_docs w' h `sublist_of` collection_docs w h;
  ev_classes : classes w' = classes w;
  ev_getter : getter (store w') = getter (store w);
  ev_dicts : forall l d, dicts (heap w) !! l = Some d -> dicts (heap w') !! l = Some d;
  ev_objs : forall l i, objs (heap w) !! l = Some i -> objs (heap w') !! l = Some i
}.

(** [m] relates every world it is run in to the world it leaves,
    whatever its outcome. *)
Definition preserves {A} (R : World -> World -> Prop) (m : M A) : Prop :=
  forall w, R w (m w).2.

(** The calls [f a] for the elements of a list, one after the other in
    list order, each returning normally. *)
Inductive each_in_order {A} (f : A -> M unit) : list A -> World -> World -> Prop :=
| each_done w : each_in_order f [] w w
| each_next a l w w1 w2 :
    f a w = (Ok tt, w1) ->
    each_in_order f l w1 w2 ->
    each_in_order f (a :: l) w w2.

(** Spec 4.4, step 1: for every edge, in registration order, the matching
    child records are fetched, all of them, and then deleted one after the
    other in fetch order, each by its own [delete]. *)
Inductive edges_cascaded (obj_delete : loc -> M unit) (model : loc)
    : list Edge -> World -> World -> Prop :=
| edges_done w : edges_cascaded obj_delete model [] w w
| edges_next e es w objs w1 w2 w3 :
    Manager.related_objs model e w = (Ok objs, w1) ->
    each_in_order obj_delete objs w1 w2 ->
    edges_cascaded obj_delete model es w2 w3 ->
    edges_cascaded obj_delete model (e :: es) w w3.

(** The operations of a manager instance, as a caller may issue them one
    after the other on the same instance. *)
Inductive manager_call :=
| call_count
| call_find_all
| call_delete_many
| call_update_many (set : document)
| call_filter (narrowing : option pyfilter)
| call_find_one (args : list pyarg) (raise_exception : bool).

Definition run_call (self : manager) (c : manager_call) : M unit :=
  match c with
  | call_count => Manager.count self ;; ret tt
  | call_find_all => Manager.find_all self ;; ret tt
  | call_delete_many => Manager.delete_many self ;; ret tt
  | call_update_many set => Manager.update_many self set ;; ret tt
  | call_filter narrowing => Manager.filter self narrowing ;; ret tt
  | call_find_one args raise_exception => Manager.find_one self args raise_exception ;; ret tt
  end.

(** The world after the calls, the caller going on after an exception. *)
Fixpoint run_calls (self : manager) (cs : list manager_call) (w : World) : World :=
  match cs with
  | [] => w
  | c :: cs' => run_calls self cs' (run_call self c w).2
  end.

(** The identifier a call hands to [find_one], if it is such a call. *)
Definition names_identifier (c : manager_call) : option ObjectId :=
  match c with
  | call_find_one (AVal (VOid j) :: _) _ => Some j
  | _ => None
  end.

(** The filter a driver call was made with. *)
Definition event_filter (ev : Event) : option pyfilter :=
  match ev with
  | EvInsertOne _ _ => None
  | EvUpdateOne _ flt _ | EvUpdateMany _ flt _ | EvDeleteOne _ flt
  | EvDeleteMany _ flt | EvFind _ flt | EvFindOne _ flt _ | EvCount _ flt => Some flt
  end.

(** From a world where the dict at [l] is [flt]: it is still [flt], and
    every driver call made meanwhile was made with [flt]. *)
Definition scoped (l : loc) (flt : pyfilter) (w w' : World) : Prop :=
  dicts (heap w) !! l = Some flt ->
  dicts (heap w') !! l = Some flt
  /\ exists tr, log w' = log w ++ tr /\ Forall (fun ev => event_filter ev = Some flt) tr.

(** ** Vocabulary of the further properties *)

(** [str(oid)] for an [ObjectId], the encoder [json_encoders] names:
    twenty-four hexadecimal digits, lower case. *)
Definition hex_char (d : N) : ascii :=
  if (d <? 10)%N then ascii_of_N (48 + d) else ascii_of_N (87 + d).

Fixpoint hex_digits (n : nat) (o : N) (acc : string) : string :=
  match n with
  | O => acc
  | S n' => hex_digits n' (o / 16)%N (String (hex_char (o mod 16)%N) acc)
  end.

Definition ObjectId_str (o : ObjectId) : string := hex_digits 24 o "".

(** What [parse_obj] makes of a stored document, one that has its [_id]. *)
Definition parsed (c : ModelClass) (doc : document) : option instance :=
  match doc !! "_id" with
  | Some v =>
      match PyObjectId_validate v, parse_fields (model_decls c) doc with
      | Some o, Some fs =>
          Some {| i_class := c; i_fields := <["id" := VOid o]> fs; i_cache := ∅ |}
      | _, _ => None
      end
  | None => None
  end.

(** A record of the class [c] as the library makes them: [id] holds an
    identifier, the other fields are what the declarations of [c] read
    from some document, and no field goes by the names [id] or [_id]
    besides the identifier. *)
Definition record_of (c : ModelClass) (i : instance) : Prop :=
  i_class i = c
  /\ exists o fs doc0,
       i_fields i = <["id" := VOid o]> fs
       /\ parse_fields (model_decls c) doc0 = Some fs
       /\ fs !! "id" = None /\ fs !! "_id" = None.

(** How the world may change while the store is queried: the stored
    documents, the class attributes and the collection getter are left as
    they are, and so is every record that exists. *)
Record only_reads (w w' : World) : Prop := {
  or_db : db (store w') = db (store w);
  or_classes : classes w' = classes w;
  or_getter : getter (store w') = getter (store w);
  or_objs : forall l i, objs (heap w) !! l = Some i -> objs (heap w') !! l = Some i
}.

(** The same, but for the cache of the record [self]. *)
Record only_caches (self : loc) (w w' : World) : Prop := {
  oc_db : db (store w') = db (store w);
  oc_classes : classes w' = classes w;
  oc_getter : getter (store w') = getter (store w);
  oc_others : forall l i, l <> self ->
    objs (heap w) !! l = Some i -> objs (heap w') !! l = Some i;
  oc_self : forall i, objs (heap w) !! self = Some i ->
    exists i', objs (heap w') !! self = Some i'
      /\ i_class i' = i_class i /\ i_fields i' = i_fields i
}.

(** ** Further situations of the application *)

Module Scene.

(** A new user record next to [users = UserModelManager()]. *)
Definition desk : World := App.exec (alloc_obj App.new_user) App.session.

(** The module as imported, no collection getter installed, with a user
    record and a manager made. *)
Definition unset : World :=
  App.exec (alloc_obj App.new_user ;; Manager.init App.UserModelManager None) imported.

(** The users with a second document that lacks the required [name]. *)
Definition nameless : document := App.doc [("_id", VOid 102)].
Definition spoiled : World :=
  App.with_collections
    {[ "users" := [App.doc [("_id", VOid 101); ("name", VStr "P")]; nameless] ]}
    App.session.

(** The message [C2] as a record in memory, its text edited. *)
Definition edited : instance :=
  {| i_class := App.Message;
     i_fields := {[ "id" := VOid 202; "user_id" := VOid 101; "text" := VStr "edited" ]};
     i_cache := ∅ |}.
Definition editing : World := App.exec (alloc_obj edited) App.populated.

(** A manager subclass without a model of its own, with its own
    [_relation_map]. *)
Definition admin_body : ManagerBody :=
  {| b_model := None; b_collection := None; b_relation_map := true |}.

(** The message [C1] after [c1.user()] has been read once; then the
    users are all deleted and the message is given to another user. *)
Definition read_once : World := App.exec (call_reverse 1%positive "user") App.reading.
Definition cached : instance :=
  {| i_class := App.Message;
     i_fields := {[ "id" := VOid 201; "user_id" := VOid 101; "text" := VStr "C1" ]};
     i_cache := {[ "__cached_user__" := Some 2%positive ]} |}.
Definition moved : instance :=
  {| i_class := App.Message;
     i_fields := {[ "id" := VOid 201; "user_id" := VOid 999; "text" := VStr "C1" ]};
     i_cache := {[ "__cached_user__" := Some 2%positive ]} |}.
Definition given_away : World :=
  App.exec (setattr_field 1%positive "user_id" (VOid 999))
    (App.with_collections ∅ read_once).

(** A dict of the caller's, [{'name': 'P'}]. *)
Definition by_name : pyfilter := {[ "name" := CEq (VStr "P") ]}.
Definition asking : World := App.exec (alloc_dict by_name) App.populated.

(** [messages = MessageModelManager()] in the populated world. *)
Definition messages : manager :=
  {| m_class := App.MessageModelManager; document_filter := 1%positive |}.
Definition inbox : World := App.exec (Manager.init App.MessageModelManager None) App.populated.

(** The documents stored and a new user record, no relation registered. *)
Definition plain : World :=
  App.exec (alloc_obj App.new_user) (App.with_collections App.collections App.declared).

(** Users refer to the user who invited them:
    [UserModelManager.relation_map('referrer_id', 'id')(User)]; the user
    [P] is their own referrer. *)
Definition referrals : Edge :=
  {| e_model_cls := App.User; e_field_name := "referrer_id"; e_model_field_name := "id" |}.
Definition own_referrer : document :=
  App.doc [("_id", VOid 101); ("name", VStr "P"); ("referrer_id", VOid 101)].
Definition looped : World :=
  App.exec (alloc_obj App.user_P)
    (App.with_collections {[ "users" := [own_referrer] ]}
       (App.exec (Manager.relation_map App.UserModelManager "referrer_id" "id" App.User)
          App.declared)).

End Scene.

(** * Properties *)

(** ** The monad *)

Lemma bind_ok {A B} (m : M A) (k : A -> M B) w a w1 :
  m w = (Ok a, w1) -> bind m k w = k a w1.
Proof. intros H. unfold bind. by rewrite H. Qed.

Lemma bind_raise {A B} (m : M A) (k : A -> M B) w e w1 :
  m w = (Raise e, w1) -> bind m k w = (Raise e, w1).
Proof. intros H. unfold bind. by rewrite H. Qed.

Lemma bind_out_of_fuel {A B} (m : M A) (k : A -> M B) w w1 :
  m w = (OutOfFuel, w1) -> bind m k w = (OutOfFuel, w1).
Proof. intros H. unfold bind. by rewrite H. Qed.

Lemma bind_inv_ok {A B} (m : M A) (k : A -> M B) w b w' :
  bind m k w = (Ok b, w') ->
  exists a w1, m w = (Ok a, w1) /\ k a w1 = (Ok b, w').
Proof.
  unfold bind. destruct (m w) as [[a|e|] w1]; intros H; try discriminate.
  by exists a, w1.
Qed.

Lemma bind_inv_raise {A B} (m : M A) (k : A -> M B) w e w' :
  bind m k w = (Raise e, w') ->
  m w = (Raise e, w') \/ exists a w1, m w = (Ok a, w1) /\ k a w1 = (Raise e, w').
Proof.
  unfold bind. destruct (m w) as [[a|e0|] w1]; intros H; try discriminate.
  - right. by exists a, w1.
  - injection H as -> ->. by left.
Qed.

(** ** The collection getter and the driver *)

Lemma get_collection_resolves w cls h :
  resolves w cls h -> Manager.get_collection cls w = (Ok h, w).
Proof.
  intros (func & Hg & Hf).
  unfold Manager.get_collection, CollectionGetter_get_collection, bind, get. cbn.
  by rewrite Hg, Hf.
Qed.

Lemma driver_call_succeeds ev w :
  next_call_succeeds w ->
  exists w1, driver_call ev w = (Ok tt, w1)
    /\ log w1 = log w ++ [ev]
    /\ db (store w1) = db (store w)
    /\ heap w1 = heap w /\ classes w1 = classes w /\ next_oid w1 = next_oid w.
Proof.
  intros Hn. unfold driver_call, next_call_succeeds in *.
  destruct (faults (store w)) as [|[] fs] eqn:Hf; cbn in Hn; try congruence;
    eexists; (split; [reflexivity|]); cbn; auto.
Qed.

Lemma find_none (p : document -> bool) (l : list document) :
  Forall (fun d => p d = false) l -> List.find p l = None.
Proof.
  induction 1 as [|d l Hd _ IH]; cbn; [done|]. by rewrite Hd.
Qed.

(** ** [find_one] when nothing matches *)

(** The whole of what [find_one] does when no document matches. *)
Lemma find_one_not_found (self : manager) (args : list pyarg) (b : bool) (w : World)
    (h : string) (d : pyfilter) :
  dicts (heap w) !! document_filter self = Some d ->
  resolves w (m_class self) h ->
  next_call_succeeds w ->
  Forall (fun doc => matches (narrowed d args) doc = false) (collection_docs w h) ->
  exists w',
    Manager.find_one self args b w
      = (if b then Raise (ValueError (narrowed d args)) else Ok None, w')
    /\ log w' = log w ++ [EvFindOne h (narrowed d args) (rest_args args)]
    /\ dicts (heap w') = <[document_filter self := narrowed d args]> (dicts (heap w))
    /\ objs (heap w') = objs (heap w)
    /\ classes w' = classes w.
Proof.
  intros Hd Hres Hnext Hnone.
  assert (Hcore : forall w0 flt rest,
     heap w0 = with_dicts (<[document_filter self := flt]> (dicts (heap w))) (heap w) ->
     store w0 = store w -> classes w0 = classes w ->
     Forall (fun doc => matches flt doc = false) (collection_docs w h) ->
     exists w',
       (h <- Manager.get_collection (m_class self) ;;
        flt <- read_dict (document_filter self) ;;
        document <- coll_find_one h flt rest ;;
        match document with
        | None => if b then raise (ValueError flt) else ret (None : option loc)
        | Some d => o <- parse_obj (manager_model (m_class self)) d ;; ret (Some o)
        end) w0 = (if b then Raise (ValueError flt) else Ok None, w')
       /\ log w' = log w ++ [EvFindOne h flt rest]
       /\ dicts (heap w') = <[document_filter self := flt]> (dicts (heap w))
       /\ objs (heap w') = objs (heap w)
       /\ classes w' = classes w).
  { intros w0 flt rest Hh Hs Hc Hno.
    assert (Hres0 : resolves w0 (m_class self) h).
    { unfold resolves in *. by rewrite Hs. }
    erewrite bind_ok by (by apply get_collection_resolves).
    assert (Hrd : read_dict (document_filter self) w0 = (Ok flt, w0)).
    { unfold read_dict. rewrite Hh. cbn. by rewrite lookup_insert_eq. }
    erewrite bind_ok by exact Hrd.
    assert (Hn0 : next_call_succeeds w0).
    { unfold next_call_succeeds in *. by rewrite Hs. }
    destruct (driver_call_succeeds (EvFindOne h flt rest) w0 Hn0)
      as (w1 & Hcall & Hlog & Hdb & Hheap & Hcls & _).
    unfold coll_find_one.
    assert (Hfind : (driver_call (EvFindOne h flt rest) ;;
                     docs <- get_docs h ;; ret (List.find (matches flt) docs)) w0
                    = (Ok None, w1)).
    { erewrite bind_ok by exact Hcall.
      unfold get_docs, bind, ret, collection_docs. rewrite Hdb, Hs.
      fold (collection_docs w h). by rewrite find_none. }
    erewrite bind_ok by exact Hfind.
    exists w1. split; [by destruct b|].
    rewrite Hlog, Hheap, Hcls, Hh. unfold log. rewrite Hs. done. }
  assert (Hsame : heap w = with_dicts (<[document_filter self := d]> (dicts (heap w))) (heap w)).
  { destruct w as [[? ?] ? ? ?]; cbn in *. by rewrite insert_id. }
  unfold Manager.find_one.
  destruct args as [|[[ | | |i]|] rest];
    try (erewrite bind_ok by reflexivity; cbn [narrowed rest_args];
         by eapply (Hcore w d)).
  assert (Hup : exists w0, dict_update (document_filter self) "_id" (CEq (VOid i)) w = (Ok tt, w0)
     /\ heap w0 = with_dicts (<[document_filter self := <["_id" := CEq (VOid i)]> d]>
                                (dicts (heap w))) (heap w)
     /\ store w0 = store w /\ classes w0 = classes w).
  { unfold dict_update, bind, read_dict, modify. rewrite Hd. eexists. split; [reflexivity|].
    cbn. done. }
  destruct Hup as (w0 & Hup & Hh & Hs & Hc).
  assert (Hargs : (dict_update (document_filter self) "_id" (CEq (VOid i)) ;; ret rest) w
                  = (Ok rest, w0)).
  { by erewrite bind_ok by exact Hup. }
  erewrite bind_ok by exact Hargs. cbn [narrowed rest_args].
  by apply (Hcore w0 (<["_id" := CEq (VOid i)]> d) rest).
Qed.

(** C5. When the handle resolves, the driver call goes through and no
    document of the collection matches the manager's standing filter
    (narrowed by the identifier argument, if any), [find_one] with
    [raise_exception=False] returns [None], and with [raise_exception=True]
    it raises the [ValueError] that reports the filter. *)
Theorem find_one_no_match (self : manager) (args : list pyarg) (w : World)
    (h : string) (d : pyfilter) :
  dicts (heap w) !! document_filter self = Some d ->
  resolves w (m_class self) h ->
  next_call_succeeds w ->
  Forall (fun doc => matches (narrowed d args) doc = false) (collection_docs w h) ->
  (Manager.find_one self args false w).1 = Ok None
  /\ (Manager.find_one self args true w).1 = Raise (ValueError (narrowed d args)).
Proof.
  intros Hd Hres Hnext Hnone.
  destruct (find_one_not_found self args false w h d) as (w1 & H1 & _); try done.
  destruct (find_one_not_found self args true w h d) as (w2 & H2 & _); try done.
  by rewrite H1, H2.
Qed.

(** ** [update] when no document has the identifier *)

Ltac run_monad :=
  unfold Manager.get_collection, CollectionGetter_get_collection,
    coll_delete_many, coll_update_one, coll_update_many, coll_delete_one,
    coll_find, coll_find_one, coll_count_documents, getattr in *;
  unfold driver_call, read_dict, read_obj, get_docs, set_docs,
    bind, get, ret, raise, modify in *;
  cbn in *.

(** C9. When the record's identifier matches no stored document (the
    handle resolves and the driver call goes through), [update] raises
    nothing: it returns the driver's result, whose [matched_count] is 0,
    after the one [update_one] call, and no document has changed. *)
Theorem update_zero_matched (cls : ManagerClass) (model : loc)
    (include exclude : option (gset string)) (w : World)
    (h : string) (i : instance) (id : value) :
  objs (heap w) !! model = Some i ->
  i_fields i !! "id" = Some id ->
  resolves w cls h ->
  next_call_succeeds w ->
  Forall (fun doc => matches {[ "_id" := CEq id ]} doc = false) (collection_docs w h) ->
  exists w',
    Manager.update cls model include exclude w
      = (Ok {| matched_count := 0; modified_count := 0 |}, w')
    /\ db (store w') = db (store w)
    /\ log w' = log w
         ++ [EvUpdateOne h {[ "_id" := CEq id ]}
               (model_dict i include (effective_exclude include exclude))].
Proof.
  intros Hobj Hid (func & Hg & Hf) Hnext Hnone.
  apply find_none in Hnone.
  unfold Manager.update, next_call_succeeds, log in *. run_monad.
  assert (Hfs : match faults (store w) with true :: _ => False | _ => True end).
  { destruct (faults (store w)) as [|[] ?]; cbn in *; first [done | congruence]. }
  unfold collection_docs in *.
  repeat (first [rewrite Hg | rewrite Hf | rewrite Hobj | rewrite Hid | rewrite Hnone]; cbn).
  destruct (faults (store w)) as [|[] fs]; try done; cbn;
    rewrite Hnone; eexists; (split; [reflexivity|]); done.
Qed.

(** ** [delete_many] *)

Lemma delete_many_frame (self : manager) (w : World) :
  let w' := (Manager.delete_many self w).2 in
  heap w' = heap w /\ classes w' = classes w
  /\ (log w' = log w \/ exists h flt, log w' = log w ++ [EvDeleteMany h flt])
  /\ (forall h', collection_docs w' h' = collection_docs w h'
        \/ (resolves w (m_class self) h'
            /\ exists flt, dicts (heap w) !! document_filter self = Some flt
               /\ collection_docs w' h'
                  = List.filter (fun d => negb (matches flt d)) (collection_docs w h'))).
Proof.
  cbn zeta. unfold Manager.delete_many, log, resolves. run_monad.
  repeat (case_match; simplify_eq/=); repeat split; auto.
  all: try (right; eauto; fail).
  all: intros h'; unfold collection_docs; cbn;
    (destruct (decide (h' = s0)) as [->|Hne];
     [ right; split; [eauto|]; eexists; split; [reflexivity|]; by rewrite lookup_insert_eq
     | left; by rewrite lookup_insert_ne ]).
Qed.

Lemma delete_many_runs (self : manager) (w : World) (h : string) (flt : pyfilter) :
  resolves w (m_class self) h ->
  dicts (heap w) !! document_filter self = Some flt ->
  next_call_succeeds w ->
  let w' := (Manager.delete_many self w).2 in
  (Manager.delete_many self w).1
    = Ok {| deleted_count := length (List.filter (matches flt) (collection_docs w h)) |}
  /\ log w' = log w ++ [EvDeleteMany h flt]
  /\ collection_docs w' h
     = List.filter (fun d => negb (matches flt d)) (collection_docs w h).
Proof.
  intros (func & Hg & Hf) Hd Hnext. cbn zeta.
  unfold Manager.delete_many, log, next_call_succeeds in *. run_monad.
  assert (Hfs : match faults (store w) with true :: _ => False | _ => True end).
  { destruct (faults (store w)) as [|[] ?]; cbn in *; first [done | congruence]. }
  repeat (first [rewrite Hg | rewrite Hf | rewrite Hd]; cbn).
  destruct (faults (store w)) as [|[] fs]; try done; cbn;
    unfold collection_docs; cbn; by rewrite lookup_insert_eq.
Qed.

(** C7. Whatever relations are registered, [delete_many] makes at most
    one driver call, the [delete_many] on the manager's own handle with
    its standing filter: every collection is left as it was, except the
    manager's own, which keeps exactly the documents that do not match the
    standing filter.  The heap and the class attributes are untouched.
    When the handle resolves and the call goes through, the call is made
    and the result counts the matching documents. *)
Theorem delete_many_no_cascade (self : manager) (w : World) :
  let w' := (Manager.delete_many self w).2 in
  heap w' = heap w /\ classes w' = classes w
  /\ (log w' = log w \/ exists h flt, log w' = log w ++ [EvDeleteMany h flt])
  /\ (forall h', collection_docs w' h' = collection_docs w h'
        \/ (resolves w (m_class self) h'
            /\ exists flt, dicts (heap w) !! document_filter self = Some flt
               /\ collection_docs w' h'
                  = List.filter (fun d => negb (matches flt d)) (collection_docs w h')))
  /\ (forall h flt,
        resolves w (m_class self) h ->
        dicts (heap w) !! document_filter self = Some flt ->
        next_call_succeeds w ->
        (Manager.delete_many self w).1
          = Ok {| deleted_count := length (List.filter (matches flt) (collection_docs w h)) |}
        /\ log w' = log w ++ [EvDeleteMany h flt]
        /\ collection_docs w' h
           = List.filter (fun d => negb (matches flt d)) (collection_docs w h)).
Proof.
  pose proof (delete_many_frame self w) as (Hh & Hc & Hl & Hf). cbn zeta.
  split; [done|]. split; [done|]. split; [done|]. split; [done|].
  intros h flt Hres Hd Hn. by apply (delete_many_runs self w h flt).
Qed.

(** ** [filter] *)

Lemma alloc_dict_runs (d : pyfilter) (w : World) :
  exists l w1, alloc_dict d w = (Ok l, w1)
    /\ dicts (heap w) !! l = None
    /\ dicts (heap w1) = <[l := d]> (dicts (heap w))
    /\ objs (heap w1) = objs (heap w)
    /\ classes w1 = classes w /\ store w1 = store w /\ next_oid w1 = next_oid w.
Proof.
  unfold alloc_dict. eexists _, _. split; [reflexivity|]. cbn.
  split; [|done].
  apply not_elem_of_dom, is_fresh.
Qed.

(** What [m.filter(x)] does when [m] holds the dict [d]: it returns a
    manager of the same class holding a dict object that did not exist
    before, whose entries are those of [d] overridden by those of [x];
    every dict that existed is left as it was. *)
Lemma filter_runs (self : manager) (x : option pyfilter) (w : World) (d : pyfilter) :
  dicts (heap w) !! document_filter self = Some d ->
  exists m' w',
    Manager.filter self x w = (Ok m', w')
    /\ m_class m' = m_class self
    /\ dicts (heap w) !! document_filter m' = None
    /\ dicts (heap w') !! document_filter m' = Some (default ∅ x ∪ d)
    /\ (forall l f, dicts (heap w) !! l = Some f -> dicts (heap w') !! l = Some f)
    /\ objs (heap w') = objs (heap w)
    /\ classes w' = classes w /\ store w' = store w /\ next_oid w' = next_oid w.
Proof.
  intros Hd. unfold Manager.filter.
  assert (Hrd : read_dict (document_filter self) w = (Ok d, w)).
  { unfold read_dict. by rewrite Hd. }
  erewrite bind_ok by exact Hrd.
  destruct (alloc_dict_runs (default ∅ x ∪ d) w) as (l & w1 & Hal & Hfresh & Hd1 & Ho1 & Hc1 & Hs1 & Hn1).
  erewrite bind_ok by exact Hal.
  unfold Manager.init.
  assert (Hrd1 : read_dict l w1 = (Ok (default ∅ x ∪ d), w1)).
  { unfold read_dict. rewrite Hd1. by rewrite lookup_insert_eq. }
  erewrite bind_ok by exact Hrd1.
  destruct (decide (default ∅ x ∪ d = ∅)) as [Hempty|Hne].
  - destruct (alloc_dict_runs ∅ w1) as (l2 & w2 & Hal2 & Hfresh2 & Hd2 & Ho2 & Hc2 & Hs2 & Hn2).
    erewrite bind_ok by exact Hal2.
    exists {| m_class := m_class self; document_filter := l2 |}, w2.
    split; [reflexivity|]. cbn.
    assert (l2 <> l).
    { intros ->. rewrite Hd1 in Hfresh2. by rewrite lookup_insert_eq in Hfresh2. }
    rewrite Hd1 in Hfresh2. rewrite lookup_insert_ne in Hfresh2 by done.
    repeat split; try congruence.
    + rewrite Hd2, lookup_insert_eq. by rewrite Hempty.
    + intros l0 f Hl0. rewrite Hd2, Hd1.
      rewrite !lookup_insert_ne; [done| |]; intros ->; congruence.
  - exists {| m_class := m_class self; document_filter := l |}, w1.
    split; [reflexivity|]. cbn.
    repeat split; try congruence.
    + rewrite Hd1. by rewrite lookup_insert_eq.
    + intros l0 f Hl0. rewrite Hd1.
      rewrite lookup_insert_ne; [done|]. intros ->; congruence.
Qed.

(** C6. For a manager [m] holding the dict [d]: narrowing by [a] and then
    by [b], two predicates with disjoint keys, gives a manager of [m]'s
    class whose standing filter has the same entries as that of
    [m.filter(merge(a, b))]; and [m.filter(x)] returns a manager holding a
    new dict object, while every dict that existed before ([m]'s own
    included) is unchanged. *)
Theorem filter_narrows_without_mutation (self : manager) (w : World) (d : pyfilter) :
  dicts (heap w) !! document_filter self = Some d ->
  (forall a b : pyfilter, a ##ₘ b ->
     exists m2 w2 m3 w3 f,
       (m1 <- Manager.filter self (Some a) ;; Manager.filter m1 (Some b)) w = (Ok m2, w2)
       /\ Manager.filter self (Some (merge a b)) w = (Ok m3, w3)
       /\ m_class m2 = m_class m3
       /\ dicts (heap w2) !! document_filter m2 = Some f
       /\ dicts (heap w3) !! document_filter m3 = Some f)
  /\ (forall x : option pyfilter,
        exists m' w',
          Manager.filter self x w = (Ok m', w')
          /\ m_class m' = m_class self
          /\ document_filter m' <> document_filter self
          /\ dicts (heap w) !! document_filter m' = None
          /\ dicts (heap w') !! document_filter self = Some d
          /\ (forall l f, dicts (heap w) !! l = Some f -> dicts (heap w') !! l = Some f)).
Proof.
  intros Hd. split.
  - intros a b Hdisj.
    destruct (filter_runs self (Some a) w d Hd)
      as (m1 & w1 & Hf1 & Hc1 & _ & Hd1 & _).
    destruct (filter_runs m1 (Some b) w1 _ Hd1)
      as (m2 & w2 & Hf2 & Hc2 & _ & Hd2 & _).
    destruct (filter_runs self (Some (merge a b)) w d Hd)
      as (m3 & w3 & Hf3 & Hc3 & _ & Hd3 & _).
    exists m2, w2, m3, w3, (merge a b ∪ d).
    split; [by erewrite bind_ok by exact Hf1|].
    split; [done|]. split; [congruence|]. split; [|done].
    rewrite Hd2. cbn. f_equal. unfold merge.
    rewrite (map_union_comm a b) by done. by rewrite (assoc_L (∪)).
  - intros x.
    destruct (filter_runs self x w d Hd) as (m' & w' & Hf & Hc & Hnew & _ & Hkeep & _).
    exists m', w'. repeat split; try done.
    + intros Heq. rewrite Heq in Hnew. congruence.
    + by apply Hkeep.
Qed.

(** ** [insert] *)

Lemma selected_effective (include exclude : option (gset string)) (name : string) :
  selected include (effective_exclude include exclude) name = true
  <-> kept include exclude name.
Proof.
  unfold selected, effective_exclude, kept.
  destruct include as [inc|]; cbn.
  - destruct (decide (inc = ∅)) as [->|Hne]; cbn.
    + rewrite andb_true_iff, !bool_decide_eq_true. set_solver.
    + rewrite andb_true_r, bool_decide_eq_true. done.
  - rewrite bool_decide_eq_true. set_solver.
Qed.

Lemma model_dict_entries (i : instance) (include exclude : option (gset string))
    (k : string) (v : value) :
  i_fields i !! "_id" = None ->
  model_dict i include exclude !! k = Some v
  <-> exists name, k = alias name /\ i_fields i !! name = Some v
                   /\ selected include exclude name = true.
Proof.
  intros Hunder. unfold model_dict, alias.
  set (fs := base.filter (fun kv => selected include exclude kv.1 = true) (i_fields i)).
  assert (Hfs : forall n x, fs !! n = Some x
                  <-> i_fields i !! n = Some x /\ selected include exclude n = true).
  { intros n x. unfold fs. by rewrite map_lookup_filter_Some. }
  destruct (fs !! "id") as [v0|] eqn:Hid.
  - rewrite lookup_insert_Some, lookup_delete_Some, Hfs. split.
    + intros [[<- <-]|(Hk & Hk' & Hf & Hsel)].
      * exists "id". rewrite decide_True by done. apply Hfs in Hid. naive_solver.
      * exists k. rewrite decide_False by done. done.
    + intros (name & -> & Hf & Hsel). destruct (decide (name = "id")) as [->|Hn].
      * left. split; [done|]. assert (fs !! "id" = Some v) by (by apply Hfs). congruence.
      * right. repeat split; try done. intros <-. congruence.
  - rewrite Hfs. split.
    + intros [Hf Hsel]. exists k. rewrite decide_False; [done|].
      intros ->. assert (fs !! "id" = Some v) by (by apply Hfs). congruence.
    + intros (name & -> & Hf & Hsel). destruct (decide (name = "id")) as [->|Hn]; [|done].
      assert (fs !! "id" = Some v) by (by apply Hfs). congruence.
Qed.

Lemma existsb_none (p : document -> bool) (l : list document) :
  Forall (fun d => p d = false) l -> existsb p l = false.
Proof.
  induction 1 as [|d l Hd _ IH]; cbn; [done|]. by rewrite Hd.
Qed.

(** C8 (amended). [insert] hands to the driver the dict built from the
    record's fields, each under its alias: the fields of [include] when
    [include] is given, and otherwise all fields but those of [exclude]
    and the identifier field, which is excluded whether or not [exclude]
    is given.  When the handle resolves, the call goes through and the
    identifier is not taken, the document (with the identifier the driver
    assigned, if it had none) is appended to the collection, and that
    identifier is written to the record's [id]. *)
Theorem insert_persists_selection (cls : ManagerClass) (model : loc)
    (include exclude : option (gset string)) (w : World) (h : string) (i : instance) :
  let doc := model_dict i include (effective_exclude include exclude) in
  let stored := with_assigned_id doc (next_oid w) in
  let id := default VNone (stored !! "_id") in
  objs (heap w) !! model = Some i ->
  i_fields i !! "_id" = None ->
  resolves w cls h ->
  next_call_succeeds w ->
  Forall (fun d => d !! "_id" <> stored !! "_id") (collection_docs w h) ->
  (forall k v, doc !! k = Some v
     <-> exists name, k = alias name /\ i_fields i !! name = Some v
                      /\ kept include exclude name)
  /\ exists w',
       Manager.insert cls model include exclude w = (Ok {| inserted_id := id |}, w')
       /\ log w' = log w ++ [EvInsertOne h stored]
       /\ collection_docs w' h = collection_docs w h ++ [stored]
       /\ objs (heap w') !! model = Some (with_id i id).
Proof.
  intros doc stored id Hobj Hunder (func & Hg & Hf) Hnext Hdup. split.
  { intros k v. unfold doc. rewrite model_dict_entries by done.
    by setoid_rewrite selected_effective. }
  assert (Hex : existsb (fun d => bool_decide (d !! "_id" = stored !! "_id"))
                  (collection_docs w h) = false).
  { apply existsb_none. eapply Forall_impl; [exact Hdup|].
    intros d Hd. cbn in Hd. by apply bool_decide_eq_false. }
  assert (Hfs : match faults (store w) with true :: _ => False | _ => True end).
  { unfold next_call_succeeds in Hnext.
    destruct (faults (store w)) as [|[] ?]; cbn in *; first [done | congruence]. }
  unfold Manager.insert.
  erewrite bind_ok by (unfold read_obj; rewrite Hobj; reflexivity).
  cbv zeta.
  change (model_dict i include (effective_exclude include exclude)) with doc.
  clearbody doc.
  unfold coll_insert_one, setattr_field, write_obj, new_ObjectId, log. run_monad.
  repeat (first [rewrite Hg | rewrite Hf | rewrite Hobj]; cbn).
  unfold id, stored, with_assigned_id in *. unfold collection_docs in *.
  destruct (doc !! "_id") as [v0|] eqn:Hdoc; rewrite ?Hdoc in Hex; cbn.
  - destruct (faults (store w)) as [|[] fs]; try done; cbn;
      rewrite ?Hdoc, Hex; cbn; rewrite Hobj; cbn;
      (eexists; split; [reflexivity|]; cbn;
       rewrite !lookup_insert_eq; repeat split; try done;
       unfold id, with_id; by rewrite Hdoc).
  - destruct (faults (store w)) as [|[] fs]; try done; cbn;
      rewrite Hex; cbn; rewrite Hobj; cbn;
      (eexists; split; [reflexivity|]; cbn;
       rewrite !lookup_insert_eq; repeat split; try done;
       unfold id, with_id; by rewrite Hdoc).
Qed.

(** ** What deleting may change *)

#[export] Instance evolves_preorder : PreOrder evolves.
Proof.
  split.
  - intros w. split; auto.
  - intros w1 w2 w3 [L1 D1 C1 G1 H1 O1] [L2 D2 C2 G2 H2 O2].
    split; try congruence; eauto.
    + by trans (log w2).
    + intros h. by trans (collection_docs w2 h).
Qed.

Section preserves.
Context (R : World -> World -> Prop) `{!PreOrder R}.

Lemma preserves_ret {A} (a : A) : preserves R (ret a).
Proof. intros w. reflexivity. Qed.
Lemma preserves_raise {A} e : preserves R (@raise A e).
Proof. intros w. reflexivity. Qed.
Lemma preserves_out_of_fuel {A} : preserves R (@out_of_fuel A).
Proof. intros w. reflexivity. Qed.
Lemma preserves_get : preserves R get.
Proof. intros w. reflexivity. Qed.
Lemma preserves_bind {A B} (m : M A) (k : A -> M B) :
  preserves R m -> (forall a, preserves R (k a)) -> preserves R (bind m k).
Proof.
  intros Hm Hk w. unfold bind. specialize (Hm w).
  destruct (m w) as [[a|e|] w1]; cbn in *; try done.
  etrans; [exact Hm|]. apply Hk.
Qed.
Lemma preserves_for_each {A} (l : list A) (f : A -> M unit) :
  (forall a, preserves R (f a)) -> preserves R (for_each l f).
Proof.
  intros Hf. induction l as [|a l IH]; cbn.
  - apply preserves_ret.
  - apply preserves_bind; auto.
Qed.
Lemma preserves_map_M {A B} (l : list A) (f : A -> M B) :
  (forall a, preserves R (f a)) -> preserves R (map_M f l).
Proof.
  intros Hf. induction l as [|a l IH]; cbn.
  - apply preserves_ret.
  - apply preserves_bind; auto. intros b.
    apply preserves_bind; auto. intros bs. apply preserves_ret.
Qed.
End preserves.

Lemma delete_first_sublist (p : document -> bool) (l : list document) :
  delete_first p l `sublist_of` l.
Proof.
  induction l as [|d l IH]; cbn; [done|].
  destruct (p d); [by apply sublist_cons | by apply sublist_skip].
Qed.

Ltac step_frame :=
  first [ apply preserves_bind; [try apply _| |intros]
        | apply preserves_ret; apply _
        | apply preserves_raise; apply _
        | apply preserves_get; apply _
        | apply preserves_for_each; [apply _|intros]
        | apply preserves_map_M; [apply _|intros] ].

Lemma evolves_driver_call ev : preserves evolves (driver_call ev).
Proof.
  intros w. unfold driver_call.
  destruct (faults (store w)) as [|[] ?]; cbn; split; cbn; auto;
    try (unfold log; cbn; by apply prefix_app_r).
Qed.

Lemma evolves_alloc_dict d : preserves evolves (alloc_dict d).
Proof.
  intros w. unfold alloc_dict. cbn. split; cbn; auto.
  intros l d0 Hl. rewrite lookup_insert_ne; [done|].
    intros <-. pose proof (is_fresh (dom (dicts (heap w)))) as Hf.
    apply not_elem_of_dom in Hf. congruence.
Qed.

Lemma evolves_alloc_obj i : preserves evolves (alloc_obj i).
Proof.
  intros w. unfold alloc_obj. cbn. split; cbn; auto.
  intros l d0 Hl. rewrite lookup_insert_ne; [done|].
    intros <-. pose proof (is_fresh (dom (objs (heap w)))) as Hf.
    apply not_elem_of_dom in Hf. congruence.
Qed.

Lemma evolves_read_dict l : preserves evolves (read_dict l).
Proof. intros w. unfold read_dict. destruct (_ !! _); cbn; reflexivity. Qed.
Lemma evolves_read_obj l : preserves evolves (read_obj l).
Proof. intros w. unfold read_obj. destruct (_ !! _); cbn; reflexivity. Qed.
Lemma evolves_get_docs h : preserves evolves (get_docs h).
Proof. intros w. reflexivity. Qed.
Lemma evolves_new_ObjectId : preserves evolves new_ObjectId.
Proof. intros w. unfold new_ObjectId. cbn. split; cbn; auto; done. Qed.

Lemma evolves_getattr l n : preserves evolves (getattr l n).
Proof.
  unfold getattr. step_frame; [apply evolves_read_obj|].
  destruct (_ !! _); step_frame.
Qed.

Create HintDb frame.
#[local] Hint Resolve evolves_driver_call evolves_alloc_dict evolves_alloc_obj
  evolves_read_dict evolves_read_obj evolves_get_docs evolves_new_ObjectId
  evolves_getattr : frame.

Ltac frame :=
  repeat first [ solve [eauto with frame]
               | step_frame
               | match goal with
                 | |- preserves _ (match ?x with _ => _ end) => destruct x
                 | |- preserves _ (if ?x then _ else _) => destruct x
                 end ].

Lemma evolves_manager_of c : preserves evolves (manager_of c).
Proof. unfold manager_of. frame. Qed.

Lemma evolves_get_collection cls : preserves evolves (Manager.get_collection cls).
Proof. unfold Manager.get_collection, CollectionGetter_get_collection. frame. Qed.

Lemma evolves_init cls l : preserves evolves (Manager.init cls l).
Proof. unfold Manager.init. frame. Qed.

Lemma evolves_coll_find h flt : preserves evolves (coll_find h flt).
Proof. unfold coll_find. frame. Qed.

Lemma evolves_parse_obj c doc : preserves evolves (parse_obj c doc).
Proof. unfold parse_obj. frame. Qed.

#[local] Hint Resolve evolves_manager_of evolves_get_collection evolves_init
  evolves_coll_find evolves_parse_obj : frame.

Lemma evolves_find_all m : preserves evolves (Manager.find_all m).
Proof. unfold Manager.find_all. frame. Qed.
#[local] Hint Resolve evolves_find_all : frame.

Lemma evolves_related_objs model e : preserves evolves (Manager.related_objs model e).
Proof. unfold Manager.related_objs. frame. Qed.

Lemma evolves_coll_delete_one h flt : preserves evolves (coll_delete_one h flt).
Proof.
  unfold coll_delete_one. step_frame; [apply evolves_driver_call|].
  intros w. unfold set_docs, get_docs, modify, bind, ret. cbn.
  destruct (find _ _); cbn; [|reflexivity].
  split; cbn; auto.
  intros h'. unfold collection_docs. cbn.
  destruct (decide (h' = h)) as [->|Hne].
  - rewrite lookup_insert_eq. cbn. apply delete_first_sublist.
  - by rewrite lookup_insert_ne.
Qed.
#[local] Hint Resolve evolves_related_objs evolves_coll_delete_one : frame.

Lemma evolves_delete_document cls model :
  preserves evolves (Manager.delete_document cls model).
Proof. unfold Manager.delete_document. frame. Qed.
#[local] Hint Resolve evolves_delete_document : frame.

Lemma evolves_delete fuel : forall cls model,
  preserves evolves (Manager.delete fuel cls model).
Proof.
  induction fuel as [|fuel IH]; intros cls model; cbn.
  - apply preserves_out_of_fuel, _.
  - frame.
Qed.

Lemma evolves_Model_delete fuel self : preserves evolves (Model_delete fuel self).
Proof. unfold Model_delete. pose proof (evolves_delete fuel). frame. Qed.


(** ** Cascading delete *)

Lemma for_each_ok {A} (f : A -> M unit) (l : list A) w u w' :
  for_each l f w = (Ok u, w') <-> each_in_order f l w w'.
Proof.
  destruct u. revert w. induction l as [|a l IH]; intros w; cbn.
  - unfold ret. split.
    + intros [= ->]. constructor.
    + inversion 1. done.
  - split.
    + intros H. apply bind_inv_ok in H as ([] & w1 & Ha & Hl).
      econstructor; [exact Ha|]. by apply IH.
    + inversion 1 as [|? ? ? w1 ? Ha Hl]; subst.
      erewrite bind_ok by exact Ha. by apply IH.
Qed.

Lemma for_each_app {A} (f : A -> M unit) (l1 l2 : list A) w w1 :
  each_in_order f l1 w w1 ->
  for_each (l1 ++ l2) f w = for_each l2 f w1.
Proof.
  induction 1 as [|a l w w1 w2 Ha _ IH]; cbn; [done|].
  by erewrite bind_ok by exact Ha.
Qed.

Lemma cascade_ok obj_delete model es w u w' :
  for_each es (Manager.cascade_edge obj_delete model) w = (Ok u, w')
  <-> edges_cascaded obj_delete model es w w'.
Proof.
  destruct u. revert w. induction es as [|e es IH]; intros w; cbn.
  - unfold ret. split.
    + intros [= ->]. constructor.
    + inversion 1. done.
  - split.
    + intros H. apply bind_inv_ok in H as ([] & w2 & He & Hes).
      unfold Manager.cascade_edge in He.
      apply bind_inv_ok in He as (objs & w1 & Hobjs & Hdel).
      econstructor; [exact Hobjs| |by apply IH]. by eapply for_each_ok.
    + inversion 1 as [|? ? ? objs w1 w2 ? Hobjs Hdel Hes]; subst.
      assert (He : Manager.cascade_edge obj_delete model e w = (Ok tt, w2)).
      { unfold Manager.cascade_edge. erewrite bind_ok by exact Hobjs.
        by apply for_each_ok. }
      erewrite bind_ok by exact He. by apply IH.
Qed.

Lemma delete_unfold fuel cls model w :
  Manager.delete (S fuel) cls model w
  = (for_each (relation_map_of w cls) (Manager.cascade_edge (Model_delete fuel) model) ;;
     Manager.delete_document cls model) w.
Proof. reflexivity. Qed.

Lemma get_collection_inv cls w r w1 :
  Manager.get_collection cls w = (r, w1) ->
  w1 = w /\ forall h, r = Ok h -> resolves w cls h.
Proof.
  unfold Manager.get_collection, CollectionGetter_get_collection, resolves, bind, get, raise, ret.
  destruct (getter (store w)) as [func|] eqn:Hg; cbn.
  - destruct (func _) as [e|h0] eqn:Hf; intros [= <- <-]; split; try done.
    intros h [= <-]. eauto.
  - intros [= <- <-]. done.
Qed.

Lemma getattr_inv l n w r w1 : getattr l n w = (r, w1) -> w1 = w.
Proof.
  unfold getattr, read_obj, bind, raise, ret.
  destruct (objs (heap w) !! l) as [i|]; cbn; [destruct (i_fields i !! n)|];
    by intros [= <- <-].
Qed.

Lemma coll_delete_one_log h flt w r w1 :
  coll_delete_one h flt w = (r, w1) -> log w1 = log w ++ [EvDeleteOne h flt].
Proof.
  unfold coll_delete_one, driver_call, get_docs, set_docs, bind, ret, modify, log.
  destruct (faults (store w)) as [|[] ?]; cbn;
    try destruct (find _ _); cbn; by intros [= <- <-].
Qed.

(** C2. A [delete] that returns has first gone through the edges of
    [cls._relation_map] in list order, which is registration order: for
    each edge the matching child records were fetched, all of them, and
    deleted one after the other in fetch order, each by its own [delete]
    run to completion; only then, in the world [w1] all of this left, was
    the [delete_one] of the record's own document issued.  It is the last
    driver call of the run, and every driver call of the cascade is in the
    log before it. *)
Theorem delete_cascades_then_deletes (fuel : nat) (cls : ManagerClass) (model : loc)
    (w : World) (res : DeleteResult) (w' : World) :
  Manager.delete (S fuel) cls model w = (Ok res, w') ->
  exists w1 h id,
    edges_cascaded (Model_delete fuel) model (relation_map_of w cls) w w1
    /\ resolves w1 cls h
    /\ getattr model "id" w1 = (Ok id, w1)
    /\ log w `prefix_of` log w1
    /\ log w' = log w1 ++ [EvDeleteOne h {[ "_id" := CEq id ]}].
Proof.
  rewrite delete_unfold. intros H.
  apply bind_inv_ok in H as ([] & w1 & Hcascade & Hdoc).
  unfold Manager.delete_document in Hdoc.
  apply bind_inv_ok in Hdoc as (h & w1' & Hh & Hdoc).
  apply get_collection_inv in Hh as [-> Hres].
  apply bind_inv_ok in Hdoc as (id & w1' & Hid & Hdoc).
  pose proof (getattr_inv _ _ _ _ _ Hid) as ->.
  exists w1, h, id. repeat split.
  - by eapply cascade_ok.
  - by apply Hres.
  - done.
  - pose proof (preserves_for_each evolves (relation_map_of w cls)
                  (Manager.cascade_edge (Model_delete fuel) model)) as Hp.
    assert (He : evolves w w1).
    { replace w1 with ((for_each (relation_map_of w cls)
                 (Manager.cascade_edge (Model_delete fuel) model) w).2)
        by (by rewrite Hcascade).
      apply Hp. intros e. unfold Manager.cascade_edge.
      pose proof (evolves_Model_delete fuel). frame. }
    apply He.
  - by eapply coll_delete_one_log.
Qed.


(** ** [find_one] and the reverse accessor *)

Lemma read_dict_inv l w r w1 :
  read_dict l w = (r, w1) -> w1 = w /\ forall d, r = Ok d -> dicts (heap w) !! l = Some d.
Proof.
  unfold read_dict. destruct (_ !! _) as [d|]; intros [= <- <-]; split; try done.
  by intros ? [= <-].
Qed.

Lemma read_obj_inv l w r w1 :
  read_obj l w = (r, w1) -> w1 = w /\ forall i, r = Ok i -> objs (heap w) !! l = Some i.
Proof.
  unfold read_obj. destruct (_ !! _) as [d|]; intros [= <- <-]; split; try done.
  by intros ? [= <-].
Qed.

Lemma coll_find_one_inv h flt rest w r w1 :
  coll_find_one h flt rest w = (r, w1) ->
  log w1 = log w ++ [EvFindOne h flt rest]
  /\ heap w1 = heap w /\ classes w1 = classes w /\ db (store w1) = db (store w)
  /\ getter (store w1) = getter (store w)
  /\ (next_call_succeeds w -> r = Ok (List.find (matches flt) (collection_docs w h))).
Proof.
  unfold coll_find_one, driver_call, get_docs, bind, ret, log, next_call_succeeds, collection_docs.
  destruct (faults (store w)) as [|[] ?]; cbn; intros [= <- <-]; cbn; repeat split; try done.
Qed.

Lemma parse_obj_inv c doc w r w1 :
  parse_obj c doc w = (r, w1) ->
  log w1 = log w /\ dicts (heap w1) = dicts (heap w) /\ classes w1 = classes w
  /\ store w1 = store w
  /\ (forall l i, objs (heap w) !! l = Some i -> objs (heap w1) !! l = Some i).
Proof.
  unfold parse_obj, new_ObjectId, alloc_obj, bind, ret, raise, log.
  intros H.
  assert (Hfresh : forall (i : instance) l i0, objs (heap w) !! l = Some i0 ->
            <[fresh (dom (objs (heap w))) := i]> (objs (heap w)) !! l = Some i0).
  { intros i l i0 Hl. rewrite lookup_insert_ne; [done|].
    intros <-. pose proof (is_fresh (dom (objs (heap w)))) as Hf.
    apply not_elem_of_dom in Hf. congruence. }
  repeat (case_match; simplify_eq/=); repeat split; auto.
Qed.

(** What a [find_one] that returns has done. *)
Lemma find_one_ok_inv (self : manager) (args : list pyarg) (b : bool) w r w' :
  Manager.find_one self args b w = (Ok r, w') ->
  exists d h,
    dicts (heap w) !! document_filter self = Some d
    /\ resolves w (m_class self) h
    /\ log w' = log w ++ [EvFindOne h (narrowed d args) (rest_args args)]
    /\ dicts (heap w') = <[document_filter self := narrowed d args]> (dicts (heap w))
    /\ classes w' = classes w
    /\ (forall l i, objs (heap w) !! l = Some i -> objs (heap w') !! l = Some i)
    /\ (b = true -> exists p, r = Some p).
Proof.
  unfold Manager.find_one. intros H.
  apply bind_inv_ok in H as (rest & w0 & Hargs & H).
  assert (Hw0 : exists d, dicts (heap w) !! document_filter self = Some d
            /\ rest = rest_args args
            /\ dicts (heap w0) = <[document_filter self := narrowed d args]> (dicts (heap w))
            /\ objs (heap w0) = objs (heap w) /\ store w0 = store w
            /\ classes w0 = classes w).
  { apply bind_inv_ok in H as (h & w1 & Hh & H).
    apply get_collection_inv in Hh as [-> _].
    apply bind_inv_ok in H as (flt & w1 & Hflt & _).
    apply read_dict_inv in Hflt as [-> Hflt]. specialize (Hflt _ eq_refl).
    destruct args as [|[[ | | |i]|] args'];
      try (injection Hargs as <- <-; exists flt; cbn; rewrite insert_id by done; done).
    apply bind_inv_ok in Hargs as ([] & w1 & Hup & Hret).
    injection Hret as <- <-.
    unfold dict_update in Hup.
    apply bind_inv_ok in Hup as (d & w2 & Hd & Hup).
    apply read_dict_inv in Hd as [-> Hd]. specialize (Hd _ eq_refl).
    injection Hup as <-. exists d. cbn. done. }
  destruct Hw0 as (d & Hd & -> & Hd0 & Ho0 & Hs0 & Hc0).
  apply bind_inv_ok in H as (h & w1 & Hh & H).
  apply get_collection_inv in Hh as [-> Hres]. specialize (Hres _ eq_refl).
  apply bind_inv_ok in H as (flt & w1 & Hflt & H).
  apply read_dict_inv in Hflt as [-> Hflt]. specialize (Hflt _ eq_refl).
  rewrite Hd0, lookup_insert_eq in Hflt. injection Hflt as <-.
  apply bind_inv_ok in H as (doc & w1 & Hfind & H).
  apply coll_find_one_inv in Hfind as (Hlog & Hheap & Hcls & _).
  exists d, h. split; [done|]. split.
  { unfold resolves in *. by rewrite <- Hs0. }
  assert (Hlog1 : log w1 = log w ++ [EvFindOne h (narrowed d args) (rest_args args)]).
  { rewrite Hlog. unfold log. by rewrite Hs0. }
  destruct doc as [doc|].
  - apply bind_inv_ok in H as (o & w2 & Hparse & H). injection H as <- <-.
    apply parse_obj_inv in Hparse as (Hl2 & Hd2 & Hc2 & _ & Ho2).
    repeat split; try congruence.
    + intros l i Hl. apply Ho2. rewrite Hheap. by rewrite Ho0.
    + eauto.
  - destruct b; [discriminate|]. injection H as <- <-.
    repeat split; congruence.
Qed.

Lemma init_None_inv cls w r w1 :
  Manager.init cls None w = (r, w1) ->
  exists l, r = Ok {| m_class := cls; document_filter := l |}
    /\ dicts (heap w) !! l = None
    /\ dicts (heap w1) = <[l := ∅]> (dicts (heap w))
    /\ objs (heap w1) = objs (heap w)
    /\ classes w1 = classes w /\ store w1 = store w /\ next_oid w1 = next_oid w.
Proof.
  unfold Manager.init. intros H.
  destruct (alloc_dict_runs ∅ w) as (l & w2 & Hal & Hfresh & Hrest).
  erewrite bind_ok in H by exact Hal. injection H as <- <-.
  exists l. done.
Qed.

Lemma set_cache_inv self key v w r w1 :
  set_cache self key v w = (r, w1) ->
  (r = Ok tt -> exists i, objs (heap w) !! self = Some i
      /\ objs (heap w1) !! self
         = Some {| i_class := i_class i; i_fields := i_fields i;
                   i_cache := <[key := v]> (i_cache i) |})
  /\ log w1 = log w /\ classes w1 = classes w.
Proof.
  unfold set_cache, write_obj, read_obj, bind, modify, log.
  destruct (objs (heap w) !! self) as [i|] eqn:Hi; intros [= <- <-]; cbn; repeat split; try done.
  intros _. exists i. by rewrite lookup_insert_eq.
Qed.

Lemma get_cache_inv self key w r w1 :
  get_cache self key w = (r, w1) ->
  w1 = w /\ forall c, r = Ok c ->
     exists i, objs (heap w) !! self = Some i /\ c = default None (i_cache i !! key).
Proof.
  unfold get_cache, read_obj, bind, ret.
  destruct (objs (heap w) !! self) as [i|] eqn:Hi; intros [= <- <-]; split; try done.
  intros c [= <-]. eauto.
Qed.

(** A reverse accessor that has returned once returns the same reference
    from then on, and touches nothing. *)
Lemma call_obj_cached cls field_name rel self w r w1 :
  call_obj cls field_name rel self w = (Ok r, w1) ->
  (exists p, r = Some p)
  /\ call_obj cls field_name rel self w1 = (Ok r, w1).
Proof.
  unfold call_obj. intros H.
  apply bind_inv_ok in H as (c & w0 & Hc & H).
  apply get_cache_inv in Hc as [-> Hc]. destruct (Hc _ eq_refl) as (i0 & Hi0 & Hc0). clear Hc.
  apply bind_inv_ok in H as ([] & w2 & Hfill & H).
  apply bind_inv_ok in H as (i & w3 & Hi & H).
  apply read_obj_inv in Hi as [-> Hi]. specialize (Hi _ eq_refl).
  destruct (i_cache i !! cached_key rel) as [r0|] eqn:Hslot; [|discriminate].
  injection H as -> ->.
  assert (Hp : exists p, r = Some p).
  { destruct c as [p|].
    - injection Hfill as <-. rewrite Hi0 in Hi. injection Hi as ->.
      rewrite Hslot in Hc0. cbn in Hc0. eauto.
    - apply bind_inv_ok in Hfill as (m & wa & Hm & Hfill).
      apply bind_inv_ok in Hfill as (v & wb & Hv & Hfill).
      apply bind_inv_ok in Hfill as (r' & wc & Hfind & Hset).
      apply find_one_ok_inv in Hfind as (_ & _ & _ & _ & _ & _ & _ & _ & Hsome).
      destruct (Hsome eq_refl) as [p ->].
      apply set_cache_inv in Hset as [Hset _].
      destruct (Hset eq_refl) as (i' & _ & Hi'). rewrite Hi' in Hi. injection Hi as <-.
      cbn in Hslot. rewrite lookup_insert_eq in Hslot. injection Hslot as <-. eauto. }
  split; [done|]. destruct Hp as [p ->].
  assert (Hget : get_cache self (cached_key rel) w1 = (Ok (Some p), w1)).
  { unfold get_cache, read_obj, bind, ret. rewrite Hi. cbn. by rewrite Hslot. }
  erewrite bind_ok by exact Hget. cbn.
  unfold bind, ret, read_obj. rewrite Hi. cbn. by rewrite Hslot.
Qed.

Lemma call_reverse_dispatch (self : loc) (R : string) (w : World) (i : instance)
    (cls : ManagerClass) (field_name rel : string) :
  objs (heap w) !! self = Some i ->
  model_attr (model_attrs (classes w)) (i_class i) R = Some (obj cls field_name rel) ->
  call_reverse self R w = call_obj cls field_name rel self w.
Proof.
  intros Hi Hattr. unfold call_reverse, bind, read_obj, get. rewrite Hi. cbn.
  by rewrite Hattr.
Qed.

(** What a reverse accessor that returns has done: either the slot was
    filled and nothing happened, or the slot was empty and one [find_one]
    went to the parent's collection, its result now in the slot. *)
Lemma call_obj_returns (cls : ManagerClass) (field_name rel : string) (self : loc)
    (w : World) (i : instance) (r : option loc) (w1 : World) :
  objs (heap w) !! self = Some i ->
  call_obj cls field_name rel self w = (Ok r, w1) ->
  exists p,
    r = Some p
    /\ objs (heap w1) !! self
       = Some {| i_class := i_class i; i_fields := i_fields i;
                 i_cache := <[cached_key rel := Some p]> (i_cache i) |}
    /\ classes w1 = classes w
    /\ ((i_cache i !! cached_key rel = Some (Some p) /\ w1 = w)
        \/ (default None (i_cache i !! cached_key rel) = None
            /\ exists v h,
                 i_fields i !! field_name = Some v
                 /\ resolves w cls h
                 /\ log w1 = log w ++ [EvFindOne h (narrowed ∅ [AVal v]) (rest_args [AVal v])])).
Proof.
  intros Hself. unfold call_obj. intros H.
  apply bind_inv_ok in H as (c & w0 & Hc & H).
  apply get_cache_inv in Hc as [-> Hc]. destruct (Hc _ eq_refl) as (i0 & Hi0 & Hc0). clear Hc.
  assert (i0 = i) as -> by congruence. clear Hi0.
  apply bind_inv_ok in H as ([] & w2 & Hfill & H).
  apply bind_inv_ok in H as (i2 & w3 & Hi2 & H).
  apply read_obj_inv in Hi2 as [-> Hi2]. specialize (Hi2 _ eq_refl).
  destruct (i_cache i2 !! cached_key rel) as [r0|] eqn:Hslot; [|discriminate].
  injection H as -> ->.
  destruct c as [p|].
  - injection Hfill as <-. assert (i2 = i) as -> by congruence.
    rewrite Hslot in Hc0. cbn in Hc0. subst r.
    exists p. split; [done|]. split.
    { rewrite Hself. f_equal. destruct i as [ic ifs ica]. cbn in *. f_equal.
      by rewrite insert_id. }
    split; [done|]. by left.
  - apply bind_inv_ok in Hfill as (m & wa & Hm & Hfill).
    apply init_None_inv in Hm as (l & [= ->] & Hfresh & Hda & Hoa & Hca & Hsa & _).
    apply bind_inv_ok in Hfill as (v & wb & Hv & Hfill).
    pose proof (getattr_inv _ _ _ _ _ Hv) as ->.
    assert (Hfield : i_fields i !! field_name = Some v).
    { unfold getattr, read_obj, bind, ret, raise in Hv. rewrite Hoa, Hself in Hv. cbn in Hv.
      destruct (i_fields i !! field_name); by simplify_eq. }
    apply bind_inv_ok in Hfill as (r' & wc & Hfind & Hset).
    apply find_one_ok_inv in Hfind
      as (d & h & Hd & Hres & Hlog & _ & Hcc & Hobjs & Hsome).
    cbn in Hd. rewrite Hda, lookup_insert_eq in Hd. injection Hd as <-.
    destruct (Hsome eq_refl) as [p ->].
    apply set_cache_inv in Hset as (Hset & Hlog2 & Hc2).
    destruct (Hset eq_refl) as (i' & Hi' & Hi'').
    assert (i' = i) as ->.
    { specialize (Hobjs self i). rewrite Hoa in Hobjs. specialize (Hobjs Hself). congruence. }
    rewrite Hi'' in Hi2. injection Hi2 as <-.
    cbn in Hslot. rewrite lookup_insert_eq in Hslot. injection Hslot as <-.
    exists p. split; [done|]. split; [done|]. split; [congruence|].
    right. split; [done|]. exists v, h. split; [done|]. split.
    { unfold resolves in *. by rewrite <- Hsa. }
    rewrite Hlog2, Hlog. unfold log. by rewrite Hsa.
Qed.

(** What a reverse accessor does when the slot is empty and no parent
    document has the identifier. *)
Lemma call_obj_not_found (cls : ManagerClass) (field_name rel : string) (self : loc)
    (w : World) (i : instance) (o : ObjectId) (h : string) :
  objs (heap w) !! self = Some i ->
  default None (i_cache i !! cached_key rel) = None ->
  i_fields i !! field_name = Some (VOid o) ->
  resolves w cls h ->
  next_call_succeeds w ->
  Forall (fun doc => matches {[ "_id" := CEq (VOid o) ]} doc = false) (collection_docs w h) ->
  exists w1,
    call_obj cls field_name rel self w = (Raise (ValueError {[ "_id" := CEq (VOid o) ]}), w1)
    /\ log w1 = log w ++ [EvFindOne h {[ "_id" := CEq (VOid o) ]} []]
    /\ objs (heap w1) = objs (heap w)
    /\ classes w1 = classes w.
Proof.
  intros Hself Hslot Hfield Hres Hnext Hnone. unfold call_obj.
  assert (Hget : get_cache self (cached_key rel) w = (Ok None, w)).
  { unfold get_cache, read_obj, bind, ret. rewrite Hself. cbn. by rewrite Hslot. }
  erewrite bind_ok by exact Hget.
  destruct (alloc_dict_runs ∅ w) as (l & wa & Hal & Hfresh & Hda & Hoa & Hca & Hsa & Hna).
  assert (Hinit : Manager.init cls None w
                  = (Ok {| m_class := cls; document_filter := l |}, wa)).
  { unfold Manager.init. by erewrite bind_ok by exact Hal. }
  assert (Hv : getattr self field_name wa = (Ok (VOid o), wa)).
  { unfold getattr, read_obj, bind, ret. rewrite Hoa, Hself. cbn. by rewrite Hfield. }
  destruct (find_one_not_found {| m_class := cls; document_filter := l |}
              [AVal (VOid o)] true wa h ∅) as (wb & Hfind & Hlog & _ & Hob & Hcb).
  { cbn. by rewrite Hda, lookup_insert_eq. }
  { unfold resolves in *. cbn. by rewrite Hsa. }
  { unfold next_call_succeeds in *. by rewrite Hsa. }
  { unfold collection_docs in *. rewrite Hsa. cbn. by rewrite insert_empty. }
  cbn in Hfind, Hlog. rewrite insert_empty in Hfind, Hlog.
  exists wb. split.
  { apply bind_raise. erewrite bind_ok by exact Hinit. erewrite bind_ok by exact Hv.
    by apply bind_raise. }
  split; [|split; congruence].
  rewrite Hlog. unfold log. by rewrite Hsa.
Qed.


(** ** [find_one] by identifier narrows the receiver *)

#[export] Instance scoped_preorder l flt : PreOrder (scoped l flt).
Proof.
  split.
  - intros w Hd. split; [done|]. exists []. by rewrite app_nil_r.
  - intros w1 w2 w3 H12 H23 Hd.
    destruct (H12 Hd) as (Hd2 & tr1 & Hl1 & Hf1).
    destruct (H23 Hd2) as (Hd3 & tr2 & Hl2 & Hf2).
    split; [done|]. exists (tr1 ++ tr2). split.
    + by rewrite Hl2, Hl1, (assoc_L (++)).
    + by apply Forall_app.
Qed.

(** A step that leaves the dicts that exist and the log as they are. *)
Lemma scoped_quiet l flt (w w' : World) :
  (forall d, dicts (heap w) !! l = Some d -> dicts (heap w') !! l = Some d) ->
  log w' = log w ->
  scoped l flt w w'.
Proof.
  intros Hd Hl Hflt. split; [by apply Hd|]. exists []. by rewrite app_nil_r.
Qed.

Lemma scoped_read_dict {A} l flt (k : pyfilter -> M A) :
  preserves (scoped l flt) (k flt) ->
  preserves (scoped l flt) (bind (read_dict l) k).
Proof.
  intros Hk w Hd. unfold bind, read_dict. rewrite Hd. by apply Hk.
Qed.

Lemma scoped_get_collection cls l flt : preserves (scoped l flt) (Manager.get_collection cls).
Proof.
  intros w. destruct (Manager.get_collection cls w) as [r w1] eqn:H.
  apply get_collection_inv in H as [-> _]. reflexivity.
Qed.

Lemma scoped_parse_obj c doc l flt : preserves (scoped l flt) (parse_obj c doc).
Proof.
  intros w. destruct (parse_obj c doc w) as [r w1] eqn:H.
  apply parse_obj_inv in H as (Hl & Hd & _). cbn.
  apply scoped_quiet; [|done]. intros d. by rewrite Hd.
Qed.

Lemma scoped_alloc_dict d l flt : preserves (scoped l flt) (alloc_dict d).
Proof.
  intros w. destruct (alloc_dict_runs d w) as (l' & w1 & Hal & Hfresh & Hd1 & _ & _ & Hs & _).
  rewrite Hal. cbn. apply scoped_quiet.
  - intros d0 Hl. rewrite Hd1, lookup_insert_ne; [done|]. intros ->. congruence.
  - unfold log. by rewrite Hs.
Qed.

Lemma scoped_driver_call ev l flt :
  event_filter ev = Some flt -> preserves (scoped l flt) (driver_call ev).
Proof.
  intros Hev w Hd. unfold driver_call, log.
  destruct (faults (store w)) as [|[] ?]; cbn; (split; [done|]);
    exists [ev]; split; try done; by constructor.
Qed.

Lemma scoped_set_docs h docs l flt : preserves (scoped l flt) (set_docs h docs).
Proof. intros w. by apply scoped_quiet. Qed.

Lemma scoped_get_docs h l flt : preserves (scoped l flt) (get_docs h).
Proof. intros w. reflexivity. Qed.

Create HintDb scoped.
#[local] Hint Resolve scoped_get_collection scoped_parse_obj scoped_alloc_dict
  scoped_driver_call scoped_set_docs scoped_get_docs : scoped.

Ltac scoped :=
  repeat first [ solve [eauto with scoped]
               | step_frame
               | match goal with
                 | |- preserves _ (match ?x with _ => _ end) => destruct x
                 | |- preserves _ (if ?x then _ else _) => destruct x
                 end ].

Lemma scoped_coll_count h l flt : preserves (scoped l flt) (coll_count_documents h flt).
Proof. unfold coll_count_documents. scoped. Qed.
Lemma scoped_coll_find h l flt : preserves (scoped l flt) (coll_find h flt).
Proof. unfold coll_find. scoped. Qed.
Lemma scoped_coll_find_one h l flt rest : preserves (scoped l flt) (coll_find_one h flt rest).
Proof. unfold coll_find_one. scoped. Qed.
Lemma scoped_coll_delete_many h l flt : preserves (scoped l flt) (coll_delete_many h flt).
Proof. unfold coll_delete_many. scoped. Qed.
Lemma scoped_coll_update_many h l flt set :
  preserves (scoped l flt) (coll_update_many h flt set).
Proof. unfold coll_update_many. scoped. Qed.

#[local] Hint Resolve scoped_coll_count scoped_coll_find scoped_coll_find_one
  scoped_coll_delete_many scoped_coll_update_many : scoped.

Lemma scoped_init cls l' l flt :
  preserves (scoped l flt) (Manager.init cls l').
Proof.
  unfold Manager.init. destruct l' as [l'|]; [|scoped].
  intros w Hd. unfold bind, read_dict.
  destruct (dicts (heap w) !! l') as [d|]; cbn; [|by apply (reflexivity (R:=scoped l flt))].
  destruct (decide (d = ∅)); [|by apply (reflexivity (R:=scoped l flt))].
  revert w Hd. change (preserves (scoped l flt)
    (l'0 <- alloc_dict ∅ ;; ret {| m_class := cls; document_filter := l'0 |})).
  scoped.
Qed.
#[local] Hint Resolve scoped_init : scoped.

(** A call other than a [find_one] by another identifier keeps the
    narrowed filter and hands it to the driver. *)
Lemma scoped_run_call (self : manager) (c : manager_call) (flt : pyfilter) (i : ObjectId) :
  flt !! "_id" = Some (CEq (VOid i)) ->
  names_identifier c = None \/ names_identifier c = Some i ->
  preserves (scoped (document_filter self) flt) (run_call self c).
Proof.
  intros Hid Hc.
  assert (Hfind : forall rest (b : bool),
    preserves (scoped (document_filter self) flt)
      (h <- Manager.get_collection (m_class self) ;;
       flt <- read_dict (document_filter self) ;;
       document <- coll_find_one h flt rest ;;
       match document with
       | None => if b then raise (ValueError flt) else ret (None : option loc)
       | Some d => o <- parse_obj (manager_model (m_class self)) d ;; ret (Some o)
       end)).
  { intros rest b. step_frame; [scoped|]. apply scoped_read_dict. scoped. }
  destruct c as [| | |set|x|args b]; cbn [run_call].
  - unfold Manager.count. step_frame; [|scoped].
    step_frame; [scoped|]. apply scoped_read_dict. scoped.
  - unfold Manager.find_all. step_frame; [|scoped].
    step_frame; [scoped|]. apply scoped_read_dict. scoped.
  - unfold Manager.delete_many. step_frame; [|scoped].
    step_frame; [scoped|]. apply scoped_read_dict. scoped.
  - unfold Manager.update_many. step_frame; [|scoped].
    step_frame; [scoped|]. apply scoped_read_dict. scoped.
  - unfold Manager.filter. step_frame; [|scoped].
    apply scoped_read_dict. scoped.
  - unfold Manager.find_one. step_frame; [|scoped].
    destruct args as [|[[ | | |j]|] rest];
      try (step_frame; [scoped|]; apply Hfind).
    assert (j = i) as ->.
    { destruct Hc as [Hc|Hc]; cbn in Hc; congruence. }
    step_frame; [|apply Hfind].
    step_frame; [|scoped].
    intros w Hd. unfold dict_update, bind, read_dict, modify. rewrite Hd. cbn.
    rewrite (insert_id flt) by done. split.
    + by rewrite lookup_insert_eq.
    + exists []. by rewrite app_nil_r.
Qed.

Lemma scoped_run_calls (self : manager) (cs : list manager_call) (flt : pyfilter)
    (i : ObjectId) (w : World) :
  flt !! "_id" = Some (CEq (VOid i)) ->
  Forall (fun c => names_identifier c = None \/ names_identifier c = Some i) cs ->
  scoped (document_filter self) flt w (run_calls self cs w).
Proof.
  intros Hid Hcs. revert w. induction Hcs as [|c cs Hc _ IH]; intros w; cbn.
  - reflexivity.
  - etrans; [by apply (scoped_run_call self c flt i)|]. apply IH.
Qed.

(** What a [find_one] by identifier has done to the receiver's dict,
    whatever its outcome. *)
Lemma find_one_updates_filter (self : manager) (i : ObjectId) (rest : list pyarg)
    (b : bool) (w : World) (d : pyfilter) :
  dicts (heap w) !! document_filter self = Some d ->
  dicts (heap (Manager.find_one self (AVal (VOid i) :: rest) b w).2)
    !! document_filter self = Some (<["_id" := CEq (VOid i)]> d).
Proof.
  intros Hd.
  assert (Hup : exists w0,
     dict_update (document_filter self) "_id" (CEq (VOid i)) w = (Ok tt, w0)
     /\ dicts (heap w0) !! document_filter self = Some (<["_id" := CEq (VOid i)]> d)).
  { unfold dict_update, bind, read_dict, modify. rewrite Hd. eexists. split; [reflexivity|].
    cbn. by rewrite lookup_insert_eq. }
  destruct Hup as (w0 & Hup & Hd0).
  assert (Hrest : preserves (scoped (document_filter self) (<["_id" := CEq (VOid i)]> d))
    (h <- Manager.get_collection (m_class self) ;;
     flt <- read_dict (document_filter self) ;;
     document <- coll_find_one h flt rest ;;
     match document with
     | None => if b then raise (ValueError flt) else ret (None : option loc)
     | Some d => o <- parse_obj (manager_model (m_class self)) d ;; ret (Some o)
     end)).
  { step_frame; [scoped|]. apply scoped_read_dict. scoped. }
  unfold Manager.find_one.
  assert (Hargs : (dict_update (document_filter self) "_id" (CEq (VOid i)) ;; ret rest) w
                  = (Ok rest, w0)).
  { by erewrite bind_ok by exact Hup. }
  erewrite bind_ok by exact Hargs.
  by destruct (Hrest w0 Hd0) as [? _].
Qed.

(** C10 (amended). [m.find_one(i, ...)] with an identifier [i] writes the
    entry [_id == i] into the dict [m] holds as its standing filter,
    whatever the outcome of the call.  The entry stays, and every driver
    call made through [m] carries it, as long as no later [find_one] on
    [m] is given another identifier; such a call overwrites the entry
    with its own identifier. *)
Theorem find_one_narrows_receiver (self : manager) (i : ObjectId) (rest : list pyarg)
    (b : bool) (w : World) (d : pyfilter) :
  dicts (heap w) !! document_filter self = Some d ->
  let flt := <["_id" := CEq (VOid i)]> d in
  let w1 := (Manager.find_one self (AVal (VOid i) :: rest) b w).2 in
  dicts (heap w1) !! document_filter self = Some flt
  /\ (forall cs,
        Forall (fun c => names_identifier c = None \/ names_identifier c = Some i) cs ->
        dicts (heap (run_calls self cs w1)) !! document_filter self = Some flt
        /\ exists tr, log (run_calls self cs w1) = log w1 ++ tr
             /\ Forall (fun ev => event_filter ev = Some flt) tr)
  /\ (forall j rest' b',
        dicts (heap (Manager.find_one self (AVal (VOid j) :: rest') b' w1).2)
          !! document_filter self = Some (<["_id" := CEq (VOid j)]> d)).
Proof.
  intros Hd flt w1.
  assert (Hw1 : dicts (heap w1) !! document_filter self = Some flt).
  { by apply find_one_updates_filter. }
  split; [done|]. split.
  - intros cs Hcs.
    apply (scoped_run_calls self cs flt i w1); [|done|done].
    unfold flt. by rewrite lookup_insert_eq.
  - intros j rest' b'.
    rewrite (find_one_updates_filter self j rest' b' w1 flt Hw1).
    unfold flt. by rewrite insert_insert_eq.
Qed.

(** ** Shared [_relation_map] lists *)

(** Closed facts about the application are settled by running the code. *)
Ltac by_running :=
  cbv zeta; repeat match goal with |- _ /\ _ => split end; vm_compute; reflexivity.

(** [cls.relation_map(...)] appends to the list object [cls._relation_map]
    evaluates to, whichever class owns it. *)
Lemma relation_map_appends (cls : ManagerClass) (field_name model_field_name : string)
    (model_cls : ModelClass) (w : World) (cls' : ManagerClass) :
  relation_map_of (Manager.relation_map cls field_name model_field_name model_cls w).2 cls'
  = if decide (relation_map_owner cls' = relation_map_owner cls)
    then relation_map_of w cls
         ++ [{| e_model_cls := model_cls; e_field_name := field_name;
                e_model_field_name := model_field_name |}]
    else relation_map_of w cls'.
Proof.
  unfold Manager.relation_map, manager_of, relation_map_of, bind, modify, get, ret, raise.
  cbn.
  destruct (class_manager _ model_cls); cbn;
    (destruct (decide (relation_map_owner cls' = relation_map_owner cls)) as [->|Hne];
     [by rewrite lookup_insert_eq | by rewrite lookup_insert_ne]).
Qed.

(** The name [relation_map] derives from the parent manager's class name,
    and the accessor it attaches to the child class under that name. *)
Example rel_obj_name_of_UserModelManager :
  lower (replace "ModelManager" "" (manager_name App.UserModelManager)) = "user".
Proof. reflexivity. Qed.

Lemma relation_map_attaches_obj (cls : ManagerClass) (field_name model_field_name : string)
    (model_cls : ModelClass) (w : World) (r : ModelClass) (w' : World) :
  Manager.relation_map cls field_name model_field_name model_cls w = (Ok r, w') ->
  let rel := lower (replace "ModelManager" "" (manager_name cls)) in
  model_attrs (classes w') !! (model_name model_cls, rel)
  = Some (obj cls field_name rel).
Proof.
  unfold Manager.relation_map, manager_of, bind, modify, get, ret, raise. cbn.
  destruct (class_manager _ model_cls); cbn; [|discriminate].
  intros [= <- <-]. cbn. by rewrite lookup_insert_eq.
Qed.

(** Manager classes that do not assign [_relation_map] in their body all
    read the list of [BaseModelManager]. *)
Lemma relation_map_inherited (name : string) (b : ManagerBody) :
  b_relation_map b = false ->
  relation_map_owner (ManagerSub name b BaseModelManager) = "BaseModelManager".
Proof. intros H. cbn. by rewrite H. Qed.

(** C1 (the code at the failing input).  Nothing was registered against
    [ChatModelManager]: the two registrations of the application were made
    through [UserModelManager] and [MessageModelManager].  Yet
    [ChatModelManager._relation_map] is the list both were appended to, and
    deleting a chat walks both edges, querying the messages and the
    attachments, before it deletes the chat. *)
Theorem delete_walks_edges_of_other_managers :
  relation_map_of App.registered App.ChatModelManager
    = [App.user_messages; App.message_attachments]
  /\ Manager.delete 4 App.ChatModelManager 1%positive App.chatting
     = (Ok {| deleted_count := 1 |},
        App.exec (Manager.delete 4 App.ChatModelManager 1%positive) App.chatting)
  /\ log (App.exec (Manager.delete 4 App.ChatModelManager 1%positive) App.chatting)
     = [EvFind "messages" {[ "user_id" := CEq (VOid 401) ]};
        EvFind "attachments" {[ "message_id" := CEq (VOid 401) ]};
        EvDeleteOne "chats" {[ "_id" := CEq (VOid 401) ]}].
Proof. by_running. Qed.

(** Whatever its outcome, [delete] only adds to the log of driver calls
    and only removes documents; the class attributes, the collection
    getter and every object that existed are as before. *)
Theorem delete_only_removes (fuel : nat) (cls : ManagerClass) (model : loc) (w : World) :
  evolves w (Manager.delete fuel cls model w).2.
Proof. apply evolves_delete. Qed.

(** ** More fuel changes nothing *)

(** [m'] does what [m] does, whenever [m] does not run out of fuel. *)
Lemma bind_refines {A B} (m m' : M A) (k k' : A -> M B) :
  (forall w r w', m w = (r, w') -> r <> OutOfFuel -> m' w = (r, w')) ->
  (forall a w r w', k a w = (r, w') -> r <> OutOfFuel -> k' a w = (r, w')) ->
  forall w r w', bind m k w = (r, w') -> r <> OutOfFuel -> bind m' k' w = (r, w').
Proof.
  intros Hm Hk w r w' H Hr. unfold bind in *.
  destruct (m w) as [[a|e|] w1] eqn:Hmw.
  - rewrite (Hm _ _ _ Hmw) by done. by apply Hk.
  - rewrite (Hm _ _ _ Hmw) by done. done.
  - congruence.
Qed.

Lemma for_each_refines {A} (l : list A) (f f' : A -> M unit) :
  (forall a w r w', f a w = (r, w') -> r <> OutOfFuel -> f' a w = (r, w')) ->
  forall w r w', for_each l f w = (r, w') -> r <> OutOfFuel -> for_each l f' w = (r, w').
Proof.
  intros Hf. induction l as [|a l IH]; cbn; [done|].
  apply bind_refines; [apply Hf|]. intros _. apply IH.
Qed.

(** An outcome of [delete] other than running out of fuel is its outcome
    with any larger fuel: the bound on the recursion depth does not
    shape the results. *)
Lemma delete_fuel_monotone (fuel : nat) :
  forall cls model w r w',
    Manager.delete fuel cls model w = (r, w') -> r <> OutOfFuel ->
    Manager.delete (S fuel) cls model w = (r, w').
Proof.
  induction fuel as [|fuel IH]; intros cls model w r w' H Hr.
  - cbn in H. injection H as <- <-. done.
  - rewrite delete_unfold in *. revert H Hr.
    apply bind_refines; [|done].
    apply for_each_refines. intros e. unfold Manager.cascade_edge.
    apply bind_refines; [done|]. intros objs.
    apply for_each_refines. intros o. unfold Model_delete.
    apply bind_refines; [done|]. intros i0.
    apply bind_refines; [done|]. intros mgr.
    apply bind_refines; [|done]. apply IH.
Qed.

(** ** The statements at work on the application *)

Ltac concrete :=
  repeat match goal with
         | |- resolves _ _ _ => exists inr; split; vm_compute; reflexivity
         | |- next_call_succeeds _ => vm_compute; discriminate
         | |- Forall _ _ => compute_done
         | |- _ = _ => vm_compute; reflexivity
         end.

Lemma find_one_no_match_witness :
  (Manager.find_one App.users [AVal (VOid 999)] false App.session).1 = Ok None
  /\ (Manager.find_one App.users [AVal (VOid 999)] true App.session).1
     = Raise (ValueError (narrowed ∅ [AVal (VOid 999)])).
Proof.
  apply (find_one_no_match App.users [AVal (VOid 999)] App.session "users" ∅); concrete.
Defined.

Lemma update_zero_matched_witness :
  exists w',
    Manager.update App.UserModelManager 1%positive None None App.drafting
      = (Ok {| matched_count := 0; modified_count := 0 |}, w')
    /\ db (store w') = db (store App.drafting)
    /\ log w' = log App.drafting
         ++ [EvUpdateOne "users" {[ "_id" := CEq (VOid 7) ]}
               (model_dict App.new_user None (effective_exclude None None))].
Proof.
  apply (update_zero_matched App.UserModelManager 1%positive None None App.drafting
           "users" App.new_user (VOid 7)); concrete.
Defined.

(** The scenario of the spec: with the relations registered, the users
    are deleted in bulk; the one driver call is that [delete_many], and
    the messages and attachments of the deleted user are all still there. *)
Lemma delete_many_no_cascade_witness :
  let w' := (Manager.delete_many App.users App.session).2 in
  (Manager.delete_many App.users App.session).1 = Ok {| deleted_count := 1 |}
  /\ log w' = log App.session ++ [EvDeleteMany "users" ∅]
  /\ collection_docs w' "users" = []
  /\ collection_docs w' "messages" = collection_docs App.session "messages"
  /\ collection_docs w' "attachments" = collection_docs App.session "attachments".
Proof.
  destruct (delete_many_no_cascade App.users App.session) as (_ & _ & _ & Hframe & Hrun).
  destruct (Hrun "users" ∅) as (Hres & Hlog & Hdocs); [concrete..|].
  cbv zeta. split; [rewrite Hres; by_running|]. split; [exact Hlog|].
  split; [rewrite Hdocs; by_running|].
  split.
  - destruct (Hframe "messages") as [H|[(func & Hg & Hf) _]]; [exact H|].
    vm_compute in Hg. injection Hg as <-. discriminate Hf.
  - destruct (Hframe "attachments") as [H|[(func & Hg & Hf) _]]; [exact H|].
    vm_compute in Hg. injection Hg as <-. discriminate Hf.
Defined.

Lemma insert_persists_selection_witness :
  let doc := model_dict App.new_user None (effective_exclude None (Some {["name"]})) in
  let stored := with_assigned_id doc (next_oid App.drafting) in
  let id := default VNone (stored !! "_id") in
  (forall k v, doc !! k = Some v
     <-> exists name, k = alias name /\ i_fields App.new_user !! name = Some v
                      /\ kept None (Some {["name"]}) name)
  /\ exists w',
       Manager.insert App.UserModelManager 1%positive None (Some {["name"]}) App.drafting
         = (Ok {| inserted_id := id |}, w')
       /\ log w' = log App.drafting ++ [EvInsertOne "users" stored]
       /\ collection_docs w' "users" = collection_docs App.drafting "users" ++ [stored]
       /\ objs (heap w') !! 1%positive = Some (with_id App.new_user id).
Proof.
  apply (insert_persists_selection App.UserModelManager 1%positive None (Some {["name"]})
           App.drafting "users" App.new_user); concrete.
Defined.

(** C8 as the spec words it, at [exclude={'name'}]: the document would be
    the fields without [name], that is the record's own identifier 7.
    [insert] hands the driver a document without any field, the driver
    assigns the identifier 1 to it, and the record's [id] becomes 1. *)
Lemma insert_drops_id_when_exclude_is_given :
  model_dict App.new_user None (spec_exclude None (Some {["name"]}))
    = {[ "_id" := VOid 7 ]}
  /\ model_dict App.new_user None (effective_exclude None (Some {["name"]})) = ∅
  /\ log (App.exec (Manager.insert App.UserModelManager 1%positive None (Some {["name"]}))
            App.drafting)
     = [EvInsertOne "users" {[ "_id" := VOid 1 ]}]
  /\ objs (heap (App.exec
        (Manager.insert App.UserModelManager 1%positive None (Some {["name"]}))
        App.drafting)) !! 1%positive
     = Some (with_id App.new_user (VOid 1)).
Proof. by_running. Qed.

Lemma filter_narrows_without_mutation_witness :
  (forall a b : pyfilter, a ##ₘ b ->
     exists m2 w2 m3 w3 f,
       (m1 <- Manager.filter App.users (Some a) ;; Manager.filter m1 (Some b)) App.session
         = (Ok m2, w2)
       /\ Manager.filter App.users (Some (merge a b)) App.session = (Ok m3, w3)
       /\ m_class m2 = m_class m3
       /\ dicts (heap w2) !! document_filter m2 = Some f
       /\ dicts (heap w3) !! document_filter m3 = Some f)
  /\ (forall x : option pyfilter,
        exists m' w',
          Manager.filter App.users x App.session = (Ok m', w')
          /\ m_class m' = m_class App.users
          /\ document_filter m' <> document_filter App.users
          /\ dicts (heap App.session) !! document_filter m' = None
          /\ dicts (heap w') !! document_filter App.users = Some ∅
          /\ (forall l f, dicts (heap App.session) !! l = Some f
                 -> dicts (heap w') !! l = Some f)).
Proof.
  apply (filter_narrows_without_mutation App.users App.session ∅); concrete.
Defined.

Lemma delete_cascades_then_deletes_witness :
  exists w1 h id,
    edges_cascaded (Model_delete 3) 1%positive
      (relation_map_of App.loaded App.UserModelManager) App.loaded w1
    /\ resolves w1 App.UserModelManager h
    /\ getattr 1%positive "id" w1 = (Ok id, w1)
    /\ log App.loaded `prefix_of` log w1
    /\ log (App.exec (Manager.delete 4 App.UserModelManager 1%positive) App.loaded)
       = log w1 ++ [EvDeleteOne h {[ "_id" := CEq id ]}].
Proof.
  apply (delete_cascades_then_deletes 3 App.UserModelManager 1%positive App.loaded
           {| deleted_count := 1 |}
           (App.exec (Manager.delete 4 App.UserModelManager 1%positive) App.loaded)).
  vm_compute. reflexivity.
Defined.

(** The driver calls of that deletion, in order: the messages of [P] are
    fetched; [C1] is deleted after its own cascade; [C2] is deleted after
    its attachment [G1]; the document of [P] goes last.  (The queries for
    the messages of a message, and the like, are the walk of the shared
    list.) *)
Example cascade_order :
  log (App.exec (Manager.delete 4 App.UserModelManager 1%positive) App.loaded)
  = [EvFind "messages" {[ "user_id" := CEq (VOid 101) ]};
     EvFind "messages" {[ "user_id" := CEq (VOid 201) ]};
     EvFind "attachments" {[ "message_id" := CEq (VOid 201) ]};
     EvDeleteOne "messages" {[ "_id" := CEq (VOid 201) ]};
     EvFind "messages" {[ "user_id" := CEq (VOid 202) ]};
     EvFind "attachments" {[ "message_id" := CEq (VOid 202) ]};
     EvFind "messages" {[ "user_id" := CEq (VOid 301) ]};
     EvFind "attachments" {[ "message_id" := CEq (VOid 301) ]};
     EvDeleteOne "attachments" {[ "_id" := CEq (VOid 301) ]};
     EvDeleteOne "messages" {[ "_id" := CEq (VOid 202) ]};
     EvFind "attachments" {[ "message_id" := CEq (VOid 101) ]};
     EvDeleteOne "users" {[ "_id" := CEq (VOid 101) ]}].
Proof. vm_compute. reflexivity. Qed.




Lemma find_one_narrows_receiver_witness :
  let flt : pyfilter := <["_id" := CEq (VOid 101)]> ∅ in
  let w1 := (Manager.find_one App.users [AVal (VOid 101)] true App.session).2 in
  dicts (heap w1) !! document_filter App.users = Some flt
  /\ (forall cs,
        Forall (fun c => names_identifier c = None \/ names_identifier c = Some 101%N) cs ->
        dicts (heap (run_calls App.users cs w1)) !! document_filter App.users = Some flt
        /\ exists tr, log (run_calls App.users cs w1) = log w1 ++ tr
             /\ Forall (fun ev => event_filter ev = Some flt) tr)
  /\ (forall j rest' b',
        dicts (heap (Manager.find_one App.users (AVal (VOid j) :: rest') b' w1).2)
          !! document_filter App.users = Some (<["_id" := CEq (VOid j)]> ∅)).
Proof.
  apply (find_one_narrows_receiver App.users 101%N [] true App.session ∅); concrete.
Defined.

(** C10 as it is worded, at two lookups on one manager: after
    [users.find_one(101)], the call [users.find_one(201)] goes to the
    driver with the filter [_id == 201] alone, and that is the standing
    filter it leaves; the entry [_id == 101] is gone. *)
Lemma later_find_one_replaces_identifier :
  let w1 := App.exec (Manager.find_one App.users [AVal (VOid 101)] true) App.session in
  let w2 := App.exec (Manager.find_one App.users [AVal (VOid 201)] false) w1 in
  log w2 = log w1 ++ [EvFindOne "users" {[ "_id" := CEq (VOid 201) ]} []]
  /\ dicts (heap w2) !! document_filter App.users = Some {[ "_id" := CEq (VOid 201) ]}.
Proof. by_running. Qed.

(** * Further properties *)

(** ** Identifiers as strings *)

Lemma hex_digit_hex_char (d : N) : (d < 16)%N -> hex_digit (hex_char d) = Some d.
Proof.
  intros Hd.
  assert (Hcases : Forall (fun d => hex_digit (hex_char d) = Some d)
                     (map N.of_nat (seq 0 16))) by (vm_compute; repeat constructor).
  rewrite Forall_forall in Hcases. apply Hcases.
  apply list_elem_of_In, in_map_iff. exists (N.to_nat d). split; [lia|].
  apply in_seq. lia.
Qed.

Lemma hex_value_hex_digits (n : nat) : forall (o a : N) (acc : string),
  hex_value a (hex_digits n o acc)
  = hex_value (a * 16 ^ N.of_nat n + o mod 16 ^ N.of_nat n)%N acc.
Proof.
  induction n as [|n IH]; intros o a acc.
  - cbn [hex_digits]. f_equal. change (N.of_nat 0) with 0%N.
    rewrite N.pow_0_r, N.mod_1_r. lia.
  - cbn [hex_digits]. rewrite IH. cbn [hex_value].
    rewrite hex_digit_hex_char by (apply N.mod_lt; lia).
    f_equal.
    rewrite Nat2N.inj_succ, N.pow_succ_r'.
    assert (H16 : (16 ^ N.of_nat n <> 0)%N) by (apply N.pow_nonzero; lia).
    rewrite (N.Div0.mod_mul_r o 16 (16 ^ N.of_nat n)). lia.
Qed.

Lemma hex_digits_length (n : nat) : forall o acc,
  String.length (hex_digits n o acc) = n + String.length acc.
Proof.
  induction n as [|n IH]; intros o acc; cbn [hex_digits]; [done|].
  rewrite IH. cbn. lia.
Qed.

Lemma hex_value_bound (s : string) : forall a n,
  hex_value a s = Some n -> (n < (a + 1) * 16 ^ N.of_nat (String.length s))%N.
Proof.
  induction s as [|c s IH]; intros a n; cbn.
  - intros [= <-]. lia.
  - destruct (hex_digit c) as [d|] eqn:Hd; [|discriminate].
    intros H. apply IH in H.
    assert (d < 16)%N.
    { unfold hex_digit in Hd. repeat case_match; simplify_eq;
        repeat match goal with
               | H : (_ && _) = true |- _ => apply andb_true_iff in H as [? ?]
               | H : (_ <=? _)%N = true |- _ => apply N.leb_le in H
               end; lia. }
    rewrite Nat2N.inj_succ, N.pow_succ_r'. nia.
Qed.

(** X3. An identifier written as a string by [str], the encoder
    [json_encoders] names for [ObjectId], is read back by
    [PyObjectId.validate] as the same identifier. *)
Theorem validate_str_round_trip (o : ObjectId) :
  (o < 2 ^ 96)%N ->
  PyObjectId_validate (VStr (ObjectId_str o)) = Some o.
Proof.
  intros Ho. unfold PyObjectId_validate, ObjectId_str.
  rewrite hex_digits_length. cbn [String.length Nat.add Nat.eqb].
  rewrite hex_value_hex_digits. cbn [hex_value].
  f_equal. change (16 ^ N.of_nat 24)%N with (2 ^ 96)%N.
  rewrite N.mod_small by done. lia.
Qed.


(** ** Records and documents *)

Lemma parse_fields_declared (ds : list FieldDecl) (doc : document) :
  forall fs, parse_fields ds doc = Some fs ->
  forall d, d ∈ ds -> is_Some (fs !! f_name d).
Proof.
  induction ds as [|d0 ds IH]; intros fs Hp d Hd; [by apply elem_of_nil in Hd|].
  cbn in Hp. destruct (parse_fields ds doc) as [r|] eqn:Hr; [|discriminate].
  assert (Hstep : forall x, r !! f_name d0 = None -> fs = <[f_name d0 := x]> r ->
                    is_Some (fs !! f_name d)).
  { intros x Hnone ->. apply elem_of_cons in Hd as [->|Hd].
    - rewrite lookup_insert_eq. eauto.
    - destruct (decide (f_name d0 = f_name d)) as [->|Hne].
      + rewrite lookup_insert_eq. eauto.
      + rewrite lookup_insert_ne by done. by eapply IH. }
  destruct (r !! f_name d0) as [x|] eqn:Hx.
  - injection Hp as <-. apply elem_of_cons in Hd as [->|Hd]; [eauto|by eapply IH].
  - destruct (doc !! f_name d0) as [v|]; [|destruct (f_default d0) as [v|]];
      simplify_eq; by eapply Hstep.
Qed.

(** The fields read from a document depend on the declared names only. *)
Lemma parse_fields_agree (ds : list FieldDecl) (doc doc' : document) :
  forall fs, parse_fields ds doc = Some fs ->
  (forall d, d ∈ ds -> doc' !! f_name d = fs !! f_name d) ->
  parse_fields ds doc' = Some fs.
Proof.
  induction ds as [|d0 ds IH]; intros fs Hp Hagree; [done|].
  cbn in Hp |- *. destruct (parse_fields ds doc) as [r|] eqn:Hr; [|discriminate].
  destruct (r !! f_name d0) as [x|] eqn:Hx.
  - injection Hp as <-.
    rewrite (IH r eq_refl); [by rewrite Hx|].
    intros d Hd. apply Hagree. by apply elem_of_cons; right.
  - assert (Hv : exists v, fs = <[f_name d0 := v]> r).
    { destruct (doc !! f_name d0) as [v|]; [|destruct (f_default d0) as [v|]];
        simplify_eq; eauto. }
    destruct Hv as [v ->].
    rewrite (IH r eq_refl).
    + rewrite Hx. rewrite (Hagree d0) by (apply elem_of_cons; by left).
      by rewrite lookup_insert_eq.
    + intros d Hd. rewrite (Hagree d) by (apply elem_of_cons; by right).
      apply lookup_insert_ne. intros Heq.
      destruct (parse_fields_declared ds doc r Hr d Hd) as [y Hy]. congruence.
Qed.

(** What [parse_obj] does with a stored document. *)
Lemma parse_obj_stored (c : ModelClass) (doc : document) (w : World) :
  is_Some (doc !! "_id") ->
  parse_obj c doc w
  = match parsed c doc with
    | Some i => alloc_obj i w
    | None => (Raise ValidationError, w)
    end.
Proof.
  intros [v Hv]. unfold parse_obj, parsed. rewrite Hv.
  unfold bind, ret, raise.
  destruct (PyObjectId_validate v) as [o|]; [|done].
  by destruct (parse_fields (model_decls c) doc).
Qed.

(** With the default arguments, [insert] and [update] hand the driver the
    fields of the record without its identifier. *)
Lemma model_dict_default (i : instance) (o : ObjectId) (fs : gmap string value) :
  i_fields i = <["id" := VOid o]> fs ->
  fs !! "id" = None -> fs !! "_id" = None ->
  model_dict i None (effective_exclude None None) = fs.
Proof.
  intros Hi Hid Hunder. apply map_eq. intros k. apply option_eq. intros v.
  rewrite model_dict_entries by (rewrite Hi, lookup_insert_ne; done).
  setoid_rewrite selected_effective. unfold kept, alias. cbn.
  split.
  - intros (name & -> & Hf & _ & Hne). rewrite decide_False by done.
    rewrite Hi, lookup_insert_ne in Hf; done.
  - intros Hk. exists k. assert (k <> "id") by (intros ->; congruence).
    rewrite decide_False by done. rewrite Hi, lookup_insert_ne by done.
    repeat split; try done.
Qed.

(** What [insert] does when the driver call goes through and the
    identifier is not taken. *)
Lemma insert_runs (cls : ManagerClass) (model : loc)
    (include exclude : option (gset string)) (w : World) (h : string) (i : instance) :
  let doc := model_dict i include (effective_exclude include exclude) in
  let stored := with_assigned_id doc (next_oid w) in
  let id := default VNone (stored !! "_id") in
  objs (heap w) !! model = Some i ->
  resolves w cls h ->
  next_call_succeeds w ->
  Forall (fun d => d !! "_id" <> stored !! "_id") (collection_docs w h) ->
  exists w',
    Manager.insert cls model include exclude w = (Ok {| inserted_id := id |}, w')
    /\ log w' = log w ++ [EvInsertOne h stored]
    /\ db (store w') = <[h := collection_docs w h ++ [stored]]> (db (store w))
    /\ objs (heap w') = <[model := with_id i id]> (objs (heap w))
    /\ dicts (heap w') = dicts (heap w)
    /\ classes w' = classes w
    /\ getter (store w') = getter (store w)
    /\ faults (store w') = tail (faults (store w)).
Proof.
  intros doc stored id Hobj (func & Hg & Hf) Hnext Hdup.
  assert (Hex : existsb (fun d => bool_decide (d !! "_id" = stored !! "_id"))
                  (collection_docs w h) = false).
  { apply existsb_none. eapply Forall_impl; [exact Hdup|].
    intros d Hd. cbn in Hd. by apply bool_decide_eq_false. }
  assert (Hfs : match faults (store w) with true :: _ => False | _ => True end).
  { unfold next_call_succeeds in Hnext.
    destruct (faults (store w)) as [|[] ?]; cbn in *; first [done | congruence]. }
  unfold Manager.insert.
  erewrite bind_ok by (unfold read_obj; rewrite Hobj; reflexivity).
  cbv zeta.
  change (model_dict i include (effective_exclude include exclude)) with doc.
  clearbody doc.
  unfold coll_insert_one, setattr_field, write_obj, new_ObjectId, log. run_monad.
  repeat (first [rewrite Hg | rewrite Hf | rewrite Hobj]; cbn).
  unfold id, stored, with_assigned_id in *. unfold collection_docs in *.
  destruct (doc !! "_id") as [v0|] eqn:Hdoc; rewrite ?Hdoc in Hex; cbn.
  - destruct (faults (store w)) as [|[] fs]; try done; cbn;
      rewrite ?Hdoc, Hex; cbn; rewrite Hobj; cbn;
      (eexists; split; [reflexivity|]; cbn; by rewrite ?Hdoc).
  - destruct (faults (store w)) as [|[] fs]; try done; cbn;
      rewrite Hex; cbn; rewrite Hobj; cbn;
      (eexists; split; [reflexivity|]; cbn; by rewrite ?lookup_insert_eq).
Qed.

(** ** [find_one] when the driver answers *)

Lemma driver_call_runs ev w :
  next_call_succeeds w ->
  exists w1, driver_call ev w = (Ok tt, w1)
    /\ log w1 = log w ++ [ev]
    /\ db (store w1) = db (store w)
    /\ getter (store w1) = getter (store w)
    /\ faults (store w1) = tail (faults (store w))
    /\ heap w1 = heap w /\ classes w1 = classes w /\ next_oid w1 = next_oid w.
Proof.
  intros Hn. unfold driver_call, next_call_succeeds in *.
  destruct (faults (store w)) as [|[] fs] eqn:Hf; cbn in Hn; try congruence;
    eexists; (split; [reflexivity|]); cbn; rewrite ?Hf; done.
Qed.

(** The whole of what [find_one] does when its driver call goes through:
    it looks for the first document of the collection that matches the
    standing filter, narrowed by the identifier if the first argument is
    one, and parses it. *)
Lemma find_one_runs (self : manager) (args : list pyarg) (b : bool) (w : World)
    (h : string) (d : pyfilter) :
  dicts (heap w) !! document_filter self = Some d ->
  resolves w (m_class self) h ->
  next_call_succeeds w ->
  exists w1,
    log w1 = log w ++ [EvFindOne h (narrowed d args) (rest_args args)]
    /\ dicts (heap w1) = <[document_filter self := narrowed d args]> (dicts (heap w))
    /\ objs (heap w1) = objs (heap w)
    /\ classes w1 = classes w
    /\ db (store w1) = db (store w)
    /\ getter (store w1) = getter (store w)
    /\ faults (store w1) = tail (faults (store w))
    /\ next_oid w1 = next_oid w
    /\ Manager.find_one self args b w
       = match List.find (matches (narrowed d args)) (collection_docs w h) with
         | None => (if b then Raise (ValueError (narrowed d args)) else Ok None, w1)
         | Some doc =>
             (o <- parse_obj (manager_model (m_class self)) doc ;; ret (Some o)) w1
         end.
Proof.
  intros Hd Hres Hnext.
  assert (Hcore : forall w0 flt rest,
     heap w0 = with_dicts (<[document_filter self := flt]> (dicts (heap w))) (heap w) ->
     store w0 = store w -> classes w0 = classes w -> next_oid w0 = next_oid w ->
     exists w1,
       log w1 = log w ++ [EvFindOne h flt rest]
       /\ dicts (heap w1) = <[document_filter self := flt]> (dicts (heap w))
       /\ objs (heap w1) = objs (heap w)
       /\ classes w1 = classes w
       /\ db (store w1) = db (store w)
       /\ getter (store w1) = getter (store w)
       /\ faults (store w1) = tail (faults (store w))
       /\ next_oid w1 = next_oid w
       /\ (h <- Manager.get_collection (m_class self) ;;
           flt <- read_dict (document_filter self) ;;
           document <- coll_find_one h flt rest ;;
           match document with
           | None => if b then raise (ValueError flt) else ret (None : option loc)
           | Some d => o <- parse_obj (manager_model (m_class self)) d ;; ret (Some o)
           end) w0
          = match List.find (matches flt) (collection_docs w h) with
            | None => (if b then Raise (ValueError flt) else Ok None, w1)
            | Some doc =>
                (o <- parse_obj (manager_model (m_class self)) doc ;; ret (Some o)) w1
            end).
  { intros w0 flt rest Hh Hs Hc Hn.
    assert (Hres0 : resolves w0 (m_class self) h).
    { unfold resolves in *. by rewrite Hs. }
    assert (Hrd : read_dict (document_filter self) w0 = (Ok flt, w0)).
    { unfold read_dict. rewrite Hh. cbn. by rewrite lookup_insert_eq. }
    assert (Hn0 : next_call_succeeds w0).
    { unfold next_call_succeeds in *. by rewrite Hs. }
    destruct (driver_call_runs (EvFindOne h flt rest) w0 Hn0)
      as (w1 & Hcall & Hlog & Hdb & Hget & Hfl & Hheap & Hcls & Hno).
    exists w1.
    split; [rewrite Hlog; unfold log; by rewrite Hs|].
    split; [by rewrite Hheap, Hh|]. split; [by rewrite Hheap, Hh|].
    split; [congruence|]. split; [by rewrite Hdb, Hs|].
    split; [by rewrite Hget, Hs|]. split; [by rewrite Hfl, Hs|].
    split; [congruence|].
    erewrite bind_ok by (by apply get_collection_resolves).
    erewrite bind_ok by exact Hrd.
    assert (Hfind : coll_find_one h flt rest w0
                    = (Ok (List.find (matches flt) (collection_docs w h)), w1)).
    { unfold coll_find_one. erewrite bind_ok by exact Hcall.
      unfold get_docs, bind, ret, collection_docs. by rewrite Hdb, Hs. }
    erewrite bind_ok by exact Hfind.
    destruct (find _ _); [done|]. by destruct b. }
  assert (Hsame : heap w = with_dicts (<[document_filter self := d]> (dicts (heap w))) (heap w)).
  { destruct w as [[? ?] ? ? ?]; cbn in *. by rewrite insert_id. }
  unfold Manager.find_one.
  destruct args as [|[[ | | |i]|] rest];
    try (erewrite bind_ok by reflexivity; cbn [narrowed rest_args];
         by eapply (Hcore w d)).
  assert (Hup : exists w0, dict_update (document_filter self) "_id" (CEq (VOid i)) w = (Ok tt, w0)
     /\ heap w0 = with_dicts (<[document_filter self := <["_id" := CEq (VOid i)]> d]>
                                (dicts (heap w))) (heap w)
     /\ store w0 = store w /\ classes w0 = classes w /\ next_oid w0 = next_oid w).
  { unfold dict_update, bind, read_dict, modify. rewrite Hd. eexists. split; [reflexivity|].
    cbn. done. }
  destruct Hup as (w0 & Hup & Hh & Hs & Hc & Hn).
  assert (Hargs : (dict_update (document_filter self) "_id" (CEq (VOid i)) ;; ret rest) w
                  = (Ok rest, w0)).
  { by erewrite bind_ok by exact Hup. }
  erewrite bind_ok by exact Hargs. cbn [narrowed rest_args].
  by apply (Hcore w0 (<["_id" := CEq (VOid i)]> d) rest).
Qed.

Lemma matches_singleton (k : string) (v : value) (doc : document) :
  matches {[ k := CEq v ]} doc = true <-> default VNone (doc !! k) = v.
Proof.
  unfold matches. rewrite bool_decide_eq_true, map_Forall_singleton. cbn.
  by rewrite bool_decide_eq_true.
Qed.

Lemma find_app_last (p : document -> bool) (l : list document) (x : document) :
  Forall (fun d => p d = false) l -> p x = true -> List.find p (l ++ [x]) = Some x.
Proof.
  induction 1 as [|d l Hd _ IH]; intros Hx; cbn.
  - by rewrite Hx.
  - rewrite Hd. by apply IH.
Qed.

(** ** Round trip: [insert], then [find_one] by the identifier *)

(** X5. A record inserted with the default arguments is stored under the
    identifier the driver assigns, which becomes the record's [id]; a
    [find_one] by that identifier through an unfiltered manager of the
    class then returns a new record of the manager's model class whose
    fields, identifier included, are those of the inserted record. *)
Theorem insert_then_find_one (cls : ManagerClass) (model : loc) (self : manager)
    (w : World) (h : string) (i : instance) :
  let id := VOid (next_oid w) in
  objs (heap w) !! model = Some i ->
  record_of (manager_model cls) i ->
  m_class self = cls ->
  dicts (heap w) !! document_filter self = Some ∅ ->
  resolves w cls h ->
  Forall (eq false) (take 2 (faults (store w))) ->
  Forall (fun doc => doc !! "_id" <> Some id) (collection_docs w h) ->
  exists w1 w2 p,
    Manager.insert cls model None None w = (Ok {| inserted_id := id |}, w1)
    /\ objs (heap w1) !! model = Some (with_id i id)
    /\ Manager.find_one self [AVal id] true w1 = (Ok (Some p), w2)
    /\ p <> model
    /\ objs (heap w2) !! model = Some (with_id i id)
    /\ objs (heap w2) !! p
       = Some {| i_class := manager_model cls;
                 i_fields := i_fields (with_id i id);
                 i_cache := ∅ |}.
Proof.
  intros id Hobj (Hclass & o & fs & doc0 & Hfields & Hparse & Hid & Hunder)
    <- Hdict Hres Hfaults Hfresh.
  subst id. set (n := next_oid w) in *.
  pose proof (model_dict_default i o fs Hfields Hid Hunder) as Hdoc.
  assert (Hstored : with_assigned_id fs (next_oid w) = <["_id" := (VOid n)]> fs).
  { unfold with_assigned_id. by rewrite Hunder. }
  assert (Hn : next_call_succeeds w).
  { unfold next_call_succeeds.
    destruct (faults (store w)) as [|[] ?]; cbn in *; [done| |done].
    apply Forall_cons in Hfaults as [? _]. done. }
  destruct (insert_runs (m_class self) model None None w h i)
    as (w1 & Hins & Hlog1 & Hdb1 & Hobjs1 & Hdicts1 & Hcls1 & Hget1 & Hfl1); try done.
  { rewrite Hdoc, Hstored, lookup_insert_eq. done. }
  rewrite Hdoc, Hstored in Hins, Hlog1, Hdb1. rewrite lookup_insert_eq in Hins. cbn in Hins.
  rewrite Hdoc, Hstored, lookup_insert_eq in Hobjs1. cbn in Hobjs1.
  assert (Hn1 : next_call_succeeds w1).
  { unfold next_call_succeeds. rewrite Hfl1.
    destruct (faults (store w)) as [|? [|[] ?]]; cbn in *; try done.
    apply Forall_cons in Hfaults as [_ Hf]. apply Forall_cons in Hf as [? _]. done. }
  destruct (find_one_runs self [AVal (VOid n)] true w1 h ∅)
    as (w1' & Hlog & Hd1' & Ho1' & Hc1' & Hdb1' & _ & _ & Hno1' & Hfind); try done.
  { by rewrite Hdicts1. }
  { unfold resolves in *. by rewrite Hget1. }
  cbn [narrowed] in Hfind, Hlog, Hd1'.
  assert (Hdocs : collection_docs w1 h = collection_docs w h ++ [<["_id" := (VOid n)]> fs]).
  { unfold collection_docs at 1. by rewrite Hdb1, lookup_insert_eq. }
  rewrite Hdocs in Hfind. rewrite ?insert_empty in Hfind, Hlog, Hd1'.
  assert (Hfound : List.find (matches {[ "_id" := CEq (VOid n) ]})
                     (collection_docs w h ++ [<["_id" := (VOid n)]> fs])
                   = Some (<["_id" := (VOid n)]> fs)).
  { apply find_app_last.
    - eapply Forall_impl; [exact Hfresh|]. intros doc Hne. cbn in Hne.
      destruct (matches _ doc) eqn:Hm; [|done].
      apply matches_singleton in Hm.
      destruct (doc !! "_id"); cbn in Hm; by simplify_eq.
    - apply matches_singleton. by rewrite lookup_insert_eq. }
  rewrite Hfound in Hfind.
  assert (Hparsed : parsed (manager_model (m_class self)) (<["_id" := (VOid n)]> fs)
                    = Some {| i_class := manager_model (m_class self);
                              i_fields := <["id" := (VOid n)]> fs; i_cache := ∅ |}).
  { unfold parsed. rewrite lookup_insert_eq. cbn.
    rewrite (parse_fields_agree _ doc0 _ fs Hparse); [done|].
    intros d0 Hd0. apply lookup_insert_ne. intros Heq.
    destruct (parse_fields_declared _ _ _ Hparse d0 Hd0) as [y Hy]. congruence. }
  unfold bind in Hfind. rewrite parse_obj_stored in Hfind by (by rewrite lookup_insert_eq).
  rewrite Hparsed in Hfind. unfold alloc_obj in Hfind. cbn in Hfind.
  set (p := fresh (dom (objs (heap w1')))) in *.
  assert (Hp : objs (heap w1') !! p = None).
  { apply not_elem_of_dom, is_fresh. }
  assert (Hmodel : objs (heap w1') !! model = Some (with_id i (VOid n))).
  { rewrite Ho1', Hobjs1. by rewrite lookup_insert_eq. }
  assert (p <> model) by congruence.
  eexists w1, _, p. split; [exact Hins|].
  split; [by rewrite Hobjs1, lookup_insert_eq|].
  split; [exact Hfind|]. split; [done|]. cbn.
  split; [by rewrite lookup_insert_ne|].
  rewrite lookup_insert_eq. f_equal. f_equal.
  rewrite Hfields. by rewrite insert_insert_eq.
Qed.

(** ** Before a collection getter is installed *)

Lemma get_collection_unset (cls : ManagerClass) (w : World) :
  getter (store w) = None ->
  Manager.get_collection cls w = (Raise (NotImplementedError (manager_collection cls)), w).
Proof.
  intros Hg. unfold Manager.get_collection, CollectionGetter_get_collection, bind, get.
  by rewrite Hg.
Qed.


(** ** [find_all] *)

Lemma driver_call_fails ev w :
  ~ next_call_succeeds w ->
  exists w1, driver_call ev w = (Raise PyMongoError, w1).
Proof.
  intros Hn. unfold driver_call, next_call_succeeds in *.
  destruct (faults (store w)) as [|[] fs] eqn:Hf; cbn in Hn; try (by destruct Hn).
  eauto.
Qed.

Lemma next_call_dec w : {next_call_succeeds w} + {~ next_call_succeeds w}.
Proof.
  unfold next_call_succeeds.
  destruct (faults (store w)) as [|[] ?]; cbn; [left|right|left]; naive_solver.
Qed.

(** The records [find_all] makes of the documents the driver returns. *)
Lemma map_M_parse_ok (c : ModelClass) (docs : list document) :
  Forall (fun doc => is_Some (doc !! "_id")) docs ->
  forall w ls w1,
    map_M (parse_obj c) docs w = (Ok ls, w1) ->
    Forall2 (fun l doc => exists i, parsed c doc = Some i /\ objs (heap w1) !! l = Some i)
      ls docs
    /\ NoDup ls
    /\ Forall (fun l => objs (heap w) !! l = None) ls
    /\ (forall l i, objs (heap w) !! l = Some i -> objs (heap w1) !! l = Some i)
    /\ store w1 = store w /\ dicts (heap w1) = dicts (heap w) /\ classes w1 = classes w.
Proof.
  induction 1 as [|doc docs Hid _ IH]; intros w ls w1; cbn [map_M].
  - intros [= <- <-]. repeat split; auto; constructor.
  - intros Hrun.
    apply bind_inv_ok in Hrun as (l & w0 & Hparse & Hrun).
    apply bind_inv_ok in Hrun as (ls' & w2 & Hrest & Hret).
    injection Hret as <- <-.
    rewrite parse_obj_stored in Hparse by done.
    destruct (parsed c doc) as [i|] eqn:Hp; [|discriminate].
    unfold alloc_obj in Hparse. injection Hparse as <- <-.
    set (l := fresh (dom (objs (heap w)))) in *.
    assert (Hl : objs (heap w) !! l = None) by apply not_elem_of_dom, is_fresh.
    destruct (IH _ _ _ Hrest) as (Hall & Hnd & Hfresh & Hkept & Hs & Hd & Hc).
    cbn in Hfresh, Hkept, Hs, Hd, Hc.
    assert (Hl2 : objs (heap w2) !! l = Some i).
    { apply Hkept. by rewrite lookup_insert_eq. }
    repeat split; try done.
    + constructor; [|done]. by exists i.
    + constructor; [|done]. intros Hin.
      rewrite Forall_forall in Hfresh. specialize (Hfresh l Hin).
      by rewrite lookup_insert_eq in Hfresh.
    + constructor; [done|]. eapply Forall_impl; [exact Hfresh|].
      intros x Hx. cbn in Hx. apply lookup_insert_None in Hx as [? _]. done.
    + intros x j Hx. apply Hkept. rewrite lookup_insert_ne; [done|]. congruence.
Qed.

Lemma map_M_parse_invalid (c : ModelClass) (docs : list document) (bad : document) :
  Forall (fun doc => is_Some (doc !! "_id")) docs ->
  bad ∈ docs -> parsed c bad = None ->
  forall w, exists w1,
    map_M (parse_obj c) docs w = (Raise ValidationError, w1)
    /\ store w1 = store w /\ dicts (heap w1) = dicts (heap w) /\ classes w1 = classes w.
Proof.
  induction 1 as [|doc docs Hid _ IH]; intros Hin Hbad w; [by apply elem_of_nil in Hin|].
  cbn [map_M]. unfold bind at 1. rewrite parse_obj_stored by done.
  destruct (parsed c doc) as [i|] eqn:Hp.
  - apply elem_of_cons in Hin as [->|Hin]; [congruence|].
    unfold alloc_obj.
    destruct (IH Hin Hbad (with_heap (with_objs (<[fresh (dom (objs (heap w))) := i]>
                                        (objs (heap w))) (heap w)) w))
      as (w1 & Hrun & Hs & Hd & Hc).
    exists w1. erewrite bind_raise by exact Hrun. done.
  - by exists w.
Qed.

Lemma coll_find_runs (h : string) (flt : pyfilter) (w : World) :
  next_call_succeeds w ->
  exists w1,
    coll_find h flt w = (Ok (List.filter (matches flt) (collection_docs w h)), w1)
    /\ log w1 = log w ++ [EvFind h flt]
    /\ db (store w1) = db (store w)
    /\ getter (store w1) = getter (store w)
    /\ heap w1 = heap w /\ classes w1 = classes w.
Proof.
  intros Hn.
  destruct (driver_call_runs (EvFind h flt) w Hn)
    as (w1 & Hcall & Hlog & Hdb & Hget & _ & Hheap & Hcls & _).
  exists w1. unfold coll_find. erewrite bind_ok by exact Hcall.
  unfold get_docs, bind, ret, collection_docs. by rewrite Hdb.
Qed.

Lemma count_runs (self : manager) (w : World) (h : string) (d : pyfilter) :
  dicts (heap w) !! document_filter self = Some d ->
  resolves w (m_class self) h ->
  next_call_succeeds w ->
  exists w1,
    Manager.count self w
      = (Ok (length (List.filter (matches d) (collection_docs w h))), w1)
    /\ log w1 = log w ++ [EvCount h d]
    /\ db (store w1) = db (store w)
    /\ heap w1 = heap w /\ classes w1 = classes w.
Proof.
  intros Hd Hres Hn.
  destruct (driver_call_runs (EvCount h d) w Hn)
    as (w1 & Hcall & Hlog & Hdb & Hget & _ & Hheap & Hcls & _).
  exists w1. unfold Manager.count.
  erewrite bind_ok by (by apply get_collection_resolves).
  erewrite bind_ok by (unfold read_dict; rewrite Hd; reflexivity).
  unfold coll_count_documents. erewrite bind_ok by exact Hcall.
  unfold get_docs, bind, ret, collection_docs. by rewrite Hdb.
Qed.

(** X7. What [find_all] returns: one record for every document of the
    collection that matches the standing filter, in the order of the
    collection, each made by [parse_obj] from its document.  The records
    are new ones, pairwise distinct, the records that existed are left
    as they were, and [count], asked in the same state, gives their
    number. *)
Theorem find_all_gives_new_records (self : manager) (w : World) (h : string)
    (d : pyfilter) (ls : list loc) (w' : World) :
  dicts (heap w) !! document_filter self = Some d ->
  resolves w (m_class self) h ->
  Forall (fun doc => is_Some (doc !! "_id")) (collection_docs w h) ->
  Manager.find_all self w = (Ok ls, w') ->
  Forall2 (fun l doc => exists i, parsed (manager_model (m_class self)) doc = Some i
                                  /\ objs (heap w') !! l = Some i)
    ls (List.filter (matches d) (collection_docs w h))
  /\ NoDup ls
  /\ Forall (fun l => objs (heap w) !! l = None) ls
  /\ (forall l i, objs (heap w) !! l = Some i -> objs (heap w') !! l = Some i)
  /\ db (store w') = db (store w)
  /\ log w' = log w ++ [EvFind h d]
  /\ (Manager.count self w).1 = Ok (length ls).
Proof.
  intros Hd Hres Hids Hrun. unfold Manager.find_all in Hrun.
  erewrite bind_ok in Hrun by (by apply get_collection_resolves).
  erewrite bind_ok in Hrun by (unfold read_dict; rewrite Hd; reflexivity).
  destruct (next_call_dec w) as [Hn|Hn]; cycle 1.
  { destruct (driver_call_fails (EvFind h d) w Hn) as (w1 & Hf).
    unfold coll_find in Hrun.
    erewrite (bind_raise _ _ w) in Hrun; [discriminate|].
    erewrite bind_raise by exact Hf. reflexivity. }
  destruct (coll_find_runs h d w Hn) as (w1 & Hfind & Hlog & Hdb & Hget & Hheap & Hcls).
  erewrite bind_ok in Hrun by exact Hfind.
  apply map_M_parse_ok in Hrun as (Hall & Hnd & Hfresh & Hkept & Hs & _ & _).
  2:{ apply Forall_forall. intros doc Hin. rewrite Forall_forall in Hids.
      apply Hids. apply list_elem_of_In. apply list_elem_of_In, filter_In in Hin as [? _].
      done. }
  rewrite Hheap in Hfresh, Hkept.
  repeat split; try done.
  - by rewrite Hs.
  - unfold log. rewrite Hs. exact Hlog.
  - destruct (count_runs self w h d Hd Hres Hn) as (w2 & -> & _). cbn.
    f_equal. symmetry. by eapply Forall2_length.
Qed.


(** ** What the queries leave alone *)

#[export] Instance only_reads_preorder : PreOrder only_reads.
Proof.
  split.
  - intros w. split; auto.
  - intros w1 w2 w3 [D1 C1 G1 O1] [D2 C2 G2 O2]. split; try congruence; eauto.
Qed.

#[export] Instance only_caches_preorder self : PreOrder (only_caches self).
Proof.
  split.
  - intros w. split; eauto.
  - intros w1 w2 w3 [D1 C1 G1 O1 S1] [D2 C2 G2 O2 S2]. split; try congruence; eauto.
    intros i Hi. destruct (S1 i Hi) as (i' & Hi' & Hc & Hf).
    destruct (S2 i' Hi') as (i'' & Hi'' & Hc' & Hf').
    exists i''. repeat split; congruence.
Qed.

Lemma only_reads_caches {A} (self : loc) (m : M A) :
  preserves only_reads m -> preserves (only_caches self) m.
Proof. intros H w. destruct (H w) as [D C G O]. split; eauto. Qed.

Lemma only_reads_driver_call ev : preserves only_reads (driver_call ev).
Proof.
  intros w. unfold driver_call.
  destruct (faults (store w)) as [|[] ?]; cbn; split; cbn; auto.
Qed.

Lemma only_reads_alloc_dict d : preserves only_reads (alloc_dict d).
Proof. intros w. unfold alloc_dict. cbn. split; cbn; auto. Qed.

Lemma only_reads_alloc_obj i : preserves only_reads (alloc_obj i).
Proof.
  intros w. unfold alloc_obj. cbn. split; cbn; auto.
  intros l d0 Hl. rewrite lookup_insert_ne; [done|].
  intros <-. pose proof (is_fresh (dom (objs (heap w)))) as Hf.
  apply not_elem_of_dom in Hf. congruence.
Qed.

Lemma only_reads_read_dict l : preserves only_reads (read_dict l).
Proof. intros w. unfold read_dict. destruct (_ !! _); cbn; reflexivity. Qed.
Lemma only_reads_read_obj l : preserves only_reads (read_obj l).
Proof. intros w. unfold read_obj. destruct (_ !! _); cbn; reflexivity. Qed.
Lemma only_reads_get_docs h : preserves only_reads (get_docs h).
Proof. intros w. reflexivity. Qed.
Lemma only_reads_new_ObjectId : preserves only_reads new_ObjectId.
Proof. intros w. unfold new_ObjectId. cbn. split; cbn; auto. Qed.
Lemma only_reads_dict_update l k c : preserves only_reads (dict_update l k c).
Proof.
  intros w. unfold dict_update, bind, read_dict, modify.
  destruct (_ !! _); cbn; [|reflexivity]. split; cbn; auto.
Qed.

#[local] Hint Resolve only_reads_driver_call only_reads_alloc_dict only_reads_alloc_obj
  only_reads_read_dict only_reads_read_obj only_reads_get_docs only_reads_new_ObjectId
  only_reads_dict_update : frame.

Lemma only_reads_getattr l n : preserves only_reads (getattr l n).
Proof. unfold getattr. frame. Qed.
Lemma only_reads_manager_of c : preserves only_reads (manager_of c).
Proof. unfold manager_of. frame. Qed.
Lemma only_reads_get_collection cls : preserves only_reads (Manager.get_collection cls).
Proof. unfold Manager.get_collection, CollectionGetter_get_collection. frame. Qed.
Lemma only_reads_init cls l : preserves only_reads (Manager.init cls l).
Proof. unfold Manager.init. frame. Qed.
Lemma only_reads_parse_obj c doc : preserves only_reads (parse_obj c doc).
Proof. unfold parse_obj. frame. Qed.

#[local] Hint Resolve only_reads_getattr only_reads_manager_of
  only_reads_get_collection only_reads_init only_reads_parse_obj : frame.

Lemma only_reads_count self : preserves only_reads (Manager.count self).
Proof. unfold Manager.count, coll_count_documents. frame. Qed.
Lemma only_reads_find_all self : preserves only_reads (Manager.find_all self).
Proof. unfold Manager.find_all, coll_find. frame. Qed.
Lemma only_reads_find_one self args b : preserves only_reads (Manager.find_one self args b).
Proof. unfold Manager.find_one, coll_find_one. frame. Qed.
Lemma only_reads_filter self x : preserves only_reads (Manager.filter self x).
Proof. unfold Manager.filter. frame. Qed.

#[local] Hint Resolve only_reads_count only_reads_find_all only_reads_find_one
  only_reads_filter : frame.

(** X9. The queries never write to the store: whatever their outcome,
    [count], [find_all], [find_one], [filter] and the generated
    [by_<parent>] and [<child>_set] leave the stored documents, the class
    attributes and the collection getter as they were, and change no
    record that exists. *)
Theorem queries_never_write (self : manager) (args : list pyarg) (b : bool)
    (x : option pyfilter) (field_name model_field_name : string)
    (obj_id : value + list value) (model_cls : ModelClass) (model : loc) :
  preserves only_reads (Manager.count self)
  /\ preserves only_reads (Manager.find_all self)
  /\ preserves only_reads (Manager.find_one self args b)
  /\ preserves only_reads (Manager.filter self x)
  /\ preserves only_reads (call_by_related_obj field_name self obj_id)
  /\ preserves only_reads (call_related_model_set model_cls field_name model_field_name model).
Proof.
  repeat match goal with |- _ /\ _ => split end; auto with frame.
  - unfold call_by_related_obj. destruct obj_id; auto with frame.
  - unfold call_related_model_set. frame.
Qed.

Lemma only_caches_set_cache self key v : preserves (only_caches self) (set_cache self key v).
Proof.
  intros w. unfold set_cache, bind, read_obj, write_obj, modify.
  destruct (objs (heap w) !! self) as [i|] eqn:Hi; cbn; [|reflexivity].
  split; cbn; auto.
  - intros l j Hne Hl. by rewrite lookup_insert_ne.
  - intros j Hj. rewrite lookup_insert_eq. eexists. split; [done|]. cbn.
    rewrite Hi in Hj. by injection Hj as <-.
Qed.

(** X10. A reverse accessor touches nothing but the cache of the record
    it is called on: whatever its outcome, the stored documents, the
    class attributes and the collection getter are as before, every
    other record that exists is unchanged, and the receiver keeps its
    class and its fields. *)
Theorem reverse_accessor_only_caches (self : loc) (R : string) :
  preserves (only_caches self) (call_reverse self R).
Proof.
  assert (Hobj : forall cls field_name rel,
            preserves (only_caches self) (call_obj cls field_name rel self)).
  { intros cls field_name rel. unfold call_obj, get_cache.
    repeat first
      [ apply only_caches_set_cache
      | apply only_reads_caches; solve [auto with frame]
      | step_frame
      | match goal with
        | |- preserves _ (match ?x with _ => _ end) => destruct x
        end ]. }
  unfold call_reverse.
  repeat first
    [ apply Hobj
    | apply only_reads_caches; solve [auto with frame]
    | step_frame
    | match goal with
      | |- preserves _ (match ?x with _ => _ end) => destruct x
      end ].
Qed.

(** ** [insert] and [update] beyond the claims *)

(** X11. When [insert] raises, whatever the reason (no getter, a failed
    driver call, an identifier that is already stored), the record is as
    it was, its [id] included, and no document has been stored. *)
Theorem insert_failure_leaves_record (cls : ManagerClass) (model : loc)
    (include exclude : option (gset string)) (w : World) (e : exn) (w' : World) :
  Manager.insert cls model include exclude w = (Raise e, w') ->
  heap w' = heap w /\ db (store w') = db (store w) /\ classes w' = classes w.
Proof.
  unfold Manager.insert, coll_insert_one, setattr_field, write_obj, new_ObjectId.
  intros H. run_monad.
  repeat case_match; simplify_eq; cbn in *; simplify_eq; done.
Qed.

Lemma find_app_first (p : document -> bool) (l l' : list document) (x : document) :
  Forall (fun d => p d = false) l -> p x = true -> List.find p (l ++ x :: l') = Some x.
Proof.
  induction 1 as [|d l Hd _ IH]; intros Hx; cbn.
  - by rewrite Hx.
  - rewrite Hd. by apply IH.
Qed.

Lemma update_first_app (p : document -> bool) (f : document -> document)
    (l l' : list document) (x : document) :
  Forall (fun d => p d = false) l -> p x = true ->
  update_first p f (l ++ x :: l') = l ++ f x :: l'.
Proof.
  induction 1 as [|d l Hd _ IH]; intros Hx; cbn.
  - by rewrite Hx.
  - rewrite Hd. f_equal. by apply IH.
Qed.

(** X12. [update] changes the first stored document that has the
    record's identifier, and only that one: the fields the selection
    keeps are overwritten with the record's values, the other fields of
    the document stay as stored, and the document keeps its identifier.
    The record itself is not touched. *)
Theorem update_overwrites_selected_fields (cls : ManagerClass) (model : loc)
    (include exclude : option (gset string)) (w : World) (h : string) (i : instance)
    (id : value) (before after : list document) (doc : document) :
  let set := model_dict i include (effective_exclude include exclude) in
  objs (heap w) !! model = Some i ->
  i_fields i !! "id" = Some id ->
  i_fields i !! "_id" = None ->
  resolves w cls h ->
  next_call_succeeds w ->
  collection_docs w h = before ++ doc :: after ->
  Forall (fun d => matches {[ "_id" := CEq id ]} d = false) before ->
  matches {[ "_id" := CEq id ]} doc = true ->
  (forall k v, set !! k = Some v
     <-> exists name, k = alias name /\ i_fields i !! name = Some v
                      /\ kept include exclude name)
  /\ (forall k, set !! k = None -> (set ∪ doc) !! k = doc !! k)
  /\ default VNone ((set ∪ doc) !! "_id") = id
  /\ exists w',
       Manager.update cls model include exclude w
         = (Ok {| matched_count := 1;
                  modified_count := if decide (set ∪ doc = doc) then 0 else 1 |}, w')
       /\ collection_docs w' h = before ++ (set ∪ doc) :: after
       /\ (forall h', h' <> h -> collection_docs w' h' = collection_docs w h')
       /\ heap w' = heap w
       /\ log w' = log w ++ [EvUpdateOne h {[ "_id" := CEq id ]} set].
Proof.
  intros set Hobj Hid Hunder Hres Hnext Hdocs Hbefore Hdoc.
  assert (Hentries : forall k v, set !! k = Some v
     <-> exists name, k = alias name /\ i_fields i !! name = Some v
                      /\ kept include exclude name).
  { intros k v. unfold set. rewrite model_dict_entries by done.
    by setoid_rewrite selected_effective. }
  split; [exact Hentries|].
  split; [intros k Hk; by apply lookup_union_r|].
  split.
  { destruct (set !! "_id") as [v|] eqn:Hset.
    - erewrite lookup_union_Some_l by exact Hset. cbn.
      apply Hentries in Hset as (name & Hname & Hv & _).
      unfold alias in Hname. destruct (decide (name = "id")) as [->|]; [congruence|].
      subst name. congruence.
    - rewrite lookup_union_r by done. by apply matches_singleton. }
  destruct (driver_call_runs (EvUpdateOne h {[ "_id" := CEq id ]} set) w Hnext)
    as (w1 & Hcall & Hlog & Hdb & Hget & _ & Hheap & Hcls & _).
  unfold Manager.update. cbv zeta.
  erewrite bind_ok by (by apply get_collection_resolves).
  erewrite bind_ok by (unfold getattr, bind, read_obj, ret; rewrite Hobj, Hid; reflexivity).
  erewrite bind_ok by (unfold read_obj; rewrite Hobj; reflexivity).
  fold set. unfold coll_update_one.
  erewrite bind_ok by exact Hcall.
  assert (Hd1 : collection_docs w1 h = before ++ doc :: after).
  { unfold collection_docs in *. by rewrite Hdb. }
  unfold get_docs, set_docs, bind, ret, modify. rewrite Hd1.
  rewrite find_app_first by done. rewrite update_first_app by done.
  eexists. split; [reflexivity|]. cbn.
  split; [unfold collection_docs; cbn; by rewrite lookup_insert_eq|].
  split.
  { intros h' Hne. unfold collection_docs. cbn. by rewrite lookup_insert_ne, Hdb. }
  split; [done|]. unfold log in *. cbn. exact Hlog.
Qed.

(** ** Class statements and registrations beyond the claims *)

(** The whole of what one registration does. *)
Lemma relation_map_runs (cls : ManagerClass) (field_name model_field_name : string)
    (model_cls : ModelClass) (w : World) (child : ManagerClass) :
  class_manager (model_manager (classes w)) model_cls = Some child ->
  let rel := lower (replace "ModelManager" "" (manager_name cls)) in
  exists w',
    Manager.relation_map cls field_name model_field_name model_cls w = (Ok model_cls, w')
    /\ heap w' = heap w /\ store w' = store w
    /\ model_manager (classes w') = model_manager (classes w)
    /\ relation_maps (classes w')
       = <[relation_map_owner cls :=
             relation_map_of w cls
             ++ [{| e_model_cls := model_cls; e_field_name := field_name;
                    e_model_field_name := model_field_name |}]]> (relation_maps (classes w))
    /\ model_attrs (classes w')
       = <[(model_name model_cls, rel) := obj cls field_name rel]>
           (<[(model_name (manager_model cls), lower (model_name model_cls) +:+ "_set") :=
                related_model_set model_cls field_name model_field_name]>
              (model_attrs (classes w)))
    /\ manager_attrs (classes w')
       = <[(manager_name child, "by_" +:+ rel) := by_related_obj field_name]>
           (manager_attrs (classes w)).
Proof.
  intros Hchild rel. unfold Manager.relation_map, manager_of, bind, modify, get, ret.
  cbn. rewrite Hchild. cbn. eexists. split; [reflexivity|]. cbn. done.
Qed.

(** X13. Two relations registered from the same manager class to the
    same child class, as for two foreign keys to one parent, both stay in
    the list the cascade walks, but the generated accessors go by the
    same names and so the second registration replaces those of the
    first: the reverse accessor and [by_<parent>] use the second field
    only, and so does [<child>_set]. *)
Theorem second_relation_replaces_accessors (cls : ManagerClass)
    (f1 mf1 f2 mf2 : string) (model_cls : ModelClass) (w : World) (child : ManagerClass) :
  class_manager (model_manager (classes w)) model_cls = Some child ->
  let rel := lower (replace "ModelManager" "" (manager_name cls)) in
  let set_name := lower (model_name model_cls) +:+ "_set" in
  exists w',
    (Manager.relation_map cls f1 mf1 model_cls ;;
     Manager.relation_map cls f2 mf2 model_cls) w = (Ok model_cls, w')
    /\ relation_map_of w' cls
       = relation_map_of w cls
         ++ [{| e_model_cls := model_cls; e_field_name := f1; e_model_field_name := mf1 |};
             {| e_model_cls := model_cls; e_field_name := f2; e_model_field_name := mf2 |}]
    /\ model_attr (model_attrs (classes w')) model_cls rel = Some (obj cls f2 rel)
    /\ manager_attrs (classes w') !! (manager_name child, "by_" +:+ rel)
       = Some (by_related_obj f2)
    /\ ((model_name (manager_model cls), set_name) <> (model_name model_cls, rel) ->
        model_attr (model_attrs (classes w')) (manager_model cls) set_name
        = Some (related_model_set model_cls f2 mf2)).
Proof.
  intros Hchild rel set_name.
  destruct (relation_map_runs cls f1 mf1 model_cls w child Hchild)
    as (w1 & Hrun1 & Hh1 & Hs1 & Hm1 & Hr1 & Ha1 & Hb1).
  destruct (relation_map_runs cls f2 mf2 model_cls w1 child)
    as (w2 & Hrun2 & Hh2 & Hs2 & Hm2 & Hr2 & Ha2 & Hb2); [by rewrite Hm1|].
  exists w2. erewrite bind_ok by exact Hrun1.
  split; [exact Hrun2|].
  assert (Hw1 : relation_map_of w1 cls
                = relation_map_of w cls
                  ++ [{| e_model_cls := model_cls; e_field_name := f1;
                         e_model_field_name := mf1 |}]).
  { unfold relation_map_of at 1. by rewrite Hr1, lookup_insert_eq. }
  split.
  { unfold relation_map_of at 1. rewrite Hr2, lookup_insert_eq. cbn.
    rewrite Hw1. by rewrite <- app_assoc. }
  split.
  { destruct model_cls; cbn [model_attr]; fold rel; by rewrite Ha2, lookup_insert_eq. }
  split; [by rewrite Hb2, lookup_insert_eq|].
  intros Hne. fold rel set_name in Ha2.
  destruct (manager_model cls); cbn [model_attr]; rewrite Ha2;
    rewrite lookup_insert_ne by done; by rewrite lookup_insert_eq.
Qed.

(** X14. A manager class that subclasses another one without naming a
    model of its own takes the base's model over: after its class
    statement the model's [manager] is the subclass.  It walks the
    base's relation list, unless its body has a [_relation_map] of its
    own, in which case it walks none of the edges registered so far. *)
Theorem manager_subclass_takes_over_model (name : string) (b : ManagerBody)
    (base : ManagerClass) (w : World) :
  b_model b = None ->
  let sub := ManagerSub name b base in
  exists w',
    ModelManagerMeta_new sub w = (Ok sub, w')
    /\ manager_of (manager_model base) w' = (Ok sub, w')
    /\ relation_map_of w' sub = (if b_relation_map b then [] else relation_map_of w base)
    /\ manager_collection sub = default (manager_collection base) (b_collection b)
    /\ heap w' = heap w /\ store w' = store w.
Proof.
  intros Hb sub. unfold ModelManagerMeta_new, bind, modify, ret. cbn.
  eexists. split; [reflexivity|].
  split.
  { unfold manager_of, bind, get, ret. cbn. rewrite Hb.
    destruct (manager_model base); cbn [class_manager model_name];
      destruct (b_relation_map b); cbn; by rewrite lookup_insert_eq. }
  split.
  { unfold relation_map_of. cbn. destruct (b_relation_map b); cbn.
    - by rewrite lookup_insert_eq.
    - done. }
  split; [by destruct (b_collection b)|]. done.
Qed.

(** ** The cache of the reverse accessor is never refreshed *)

(** X15. Once a reverse accessor has returned a parent for a record, it
    goes on returning that same parent for the record without asking the
    driver, whatever has happened meanwhile to the stored documents, to
    the collection getter or to the fields of the record, its foreign
    key included; only the cache of the record decides. *)
Theorem cached_parent_is_never_refreshed (self : loc) (R : string) (w : World)
    (i : instance) (cls : ManagerClass) (field_name rel : string)
    (r : option loc) (w1 : World) (i1 : instance) (w2 : World) (i2 : instance) :
  objs (heap w) !! self = Some i ->
  model_attr (model_attrs (classes w)) (i_class i) R = Some (obj cls field_name rel) ->
  call_reverse self R w = (Ok r, w1) ->
  objs (heap w1) !! self = Some i1 ->
  objs (heap w2) !! self = Some i2 ->
  i_class i2 = i_class i1 ->
  i_cache i2 = i_cache i1 ->
  model_attrs (classes w2) = model_attrs (classes w1) ->
  call_reverse self R w2 = (Ok r, w2).
Proof.
  intros Hobj Hattr Hrun H1 H2 Hclass Hcache Hattrs.
  rewrite (call_reverse_dispatch self R w i cls field_name rel) in Hrun by done.
  destruct (call_obj_returns cls field_name rel self w i r w1 Hobj Hrun)
    as (p & -> & Hself & Hcls & _).
  rewrite H1 in Hself. injection Hself as ->. cbn in Hclass, Hcache.
  rewrite (call_reverse_dispatch self R w2 i2 cls field_name rel); [|done|].
  - unfold call_obj, get_cache, bind, read_obj, ret. rewrite H2. cbn.
    rewrite Hcache, lookup_insert_eq. cbn. rewrite H2. cbn.
    by rewrite Hcache, lookup_insert_eq.
  - by rewrite Hattrs, Hcls, Hclass.
Qed.

(** ** The dict a manager holds *)

(** X16. [BaseModelManager(d)] keeps the caller's dict object [d] when it
    is not empty, so the manager and the caller share it: a lookup by
    identifier through the manager puts [_id] into the caller's dict.  An
    empty dict is not kept: the manager gets a dict of its own and the
    caller's stays empty. *)
Theorem init_shares_nonempty_dict (cls : ManagerClass) (l : loc) (d : pyfilter)
    (w : World) (o : ObjectId) (rest : list pyarg) (b : bool) :
  dicts (heap w) !! l = Some d ->
  exists m w',
    Manager.init cls (Some l) w = (Ok m, w')
    /\ m_class m = cls
    /\ dicts (heap w') !! document_filter m = Some d
    /\ let w2 := (Manager.find_one m (AVal (VOid o) :: rest) b w').2 in
       if decide (d = ∅)
       then document_filter m <> l /\ dicts (heap w2) !! l = Some ∅
       else document_filter m = l /\ w' = w
            /\ dicts (heap w2) !! l = Some (<["_id" := CEq (VOid o)]> d).
Proof.
  intros Hd. unfold Manager.init.
  erewrite bind_ok by (unfold read_dict; rewrite Hd; reflexivity).
  destruct (decide (d = ∅)) as [->|Hne].
  - destruct (alloc_dict_runs ∅ w) as (l' & w1 & Hrun & Hfresh & Hdicts & _).
    erewrite bind_ok by exact Hrun.
    exists {| m_class := cls; document_filter := l' |}, w1.
    assert (Hll : l' <> l) by congruence.
    repeat split; try done.
    + cbn. by rewrite Hdicts, lookup_insert_eq.
    + assert (Hl1 : dicts (heap w1) !! l = Some ∅).
      { rewrite Hdicts, lookup_insert_ne; done. }
      destruct (Manager.find_one _ _ _ w1) as [r w2] eqn:Hrun2. cbn.
      unfold Manager.find_one in Hrun2.
      assert (Hm : dicts (heap w1) !! l' = Some ∅) by (by rewrite Hdicts, lookup_insert_eq).
      revert Hrun2. unfold dict_update, coll_find_one. run_monad. rewrite Hm. cbn.
      repeat case_match; intros; simplify_eq; cbn;
        rewrite ?lookup_insert_ne by done; try done;
        match goal with
        | H : parse_obj _ _ _ = _ |- _ =>
            apply parse_obj_inv in H as (_ & -> & _); cbn;
            by rewrite lookup_insert_ne
        end.
  - exists {| m_class := cls; document_filter := l |}, w.
    repeat split; try done.
    apply (find_one_updates_filter {| m_class := cls; document_filter := l |}). done.
Qed.

(** ** [by_<parent>] *)

Lemma matches_insert (f : string) (c : cond) (d : pyfilter) (doc : document) :
  matches (<[f := c]> d) doc = cond_holds c (doc !! f) && matches (base.delete f d) doc.
Proof.
  unfold matches. rewrite <- (insert_delete_eq d).
  destruct (cond_holds c (doc !! f)) eqn:Hc; cbn.
  - apply bool_decide_ext. rewrite map_Forall_insert by apply lookup_delete_eq.
    naive_solver.
  - apply bool_decide_eq_false. rewrite map_Forall_insert by apply lookup_delete_eq.
    intros [H _]. congruence.
Qed.

(** X17. [manager.by_<parent>(x)] returns a new manager of the same class
    whose filter is the receiver's with the foreign key set to [x], or to
    [{'$in': x}] for a list, in place of whatever the receiver's filter
    said about that key; the receiver's filter is not changed.  Its
    [count] is the number of stored documents whose foreign key is [x]
    (is in [x]) and that satisfy the rest of the receiver's filter. *)
Theorem by_parent_counts_children (field_name : string) (self : manager)
    (obj_id : value + list value) (w : World) (h : string) (d : pyfilter) :
  let c := match obj_id with inl v => CEq v | inr ids => CIn ids end in
  dicts (heap w) !! document_filter self = Some d ->
  resolves w (m_class self) h ->
  next_call_succeeds w ->
  exists m w1 w2,
    call_by_related_obj field_name self obj_id w = (Ok m, w1)
    /\ m_class m = m_class self
    /\ document_filter m <> document_filter self
    /\ dicts (heap w1) !! document_filter m = Some (<[field_name := c]> d)
    /\ dicts (heap w1) !! document_filter self = Some d
    /\ Manager.count m w1
       = (Ok (length (List.filter
                        (fun doc => cond_holds c (doc !! field_name)
                                    && matches (base.delete field_name d) doc)
                        (collection_docs w h))), w2)
    /\ log w2 = log w ++ [EvCount h (<[field_name := c]> d)].
Proof.
  intros c Hd Hres Hn.
  destruct (filter_runs self (Some {[ field_name := c ]}) w d Hd)
    as (m & w1 & Hrun & Hcls & Hfresh & Hdict & Hkept & Hobjs & Hclasses & Hstore & Hoid).
  cbn in Hdict. rewrite <- insert_union_singleton_l in Hdict.
  assert (Hcall : call_by_related_obj field_name self obj_id w = (Ok m, w1)).
  { unfold call_by_related_obj. by destruct obj_id. }
  destruct (count_runs m w1 h (<[field_name := c]> d)) as (w2 & Hcount & Hlog & _).
  { done. }
  { unfold resolves in *. by rewrite Hcls, Hstore. }
  { unfold next_call_succeeds in *. by rewrite Hstore. }
  exists m, w1, w2. split; [done|]. split; [done|].
  split; [congruence|]. split; [done|]. split; [by apply Hkept|].
  split.
  - rewrite Hcount. f_equal. f_equal. f_equal.
    unfold collection_docs. rewrite Hstore.
    apply filter_ext. intros doc. apply matches_insert.
  - rewrite Hlog. unfold log. by rewrite Hstore.
Qed.

(** ** Round trip: [insert], then [delete] *)

Lemma delete_first_app_last (p : document -> bool) (l : list document) (x : document) :
  Forall (fun d => p d = false) l -> p x = true -> delete_first p (l ++ [x]) = l.
Proof.
  induction 1 as [|d l Hd _ IH]; intros Hx; cbn.
  - by rewrite Hx.
  - rewrite Hd. f_equal. by apply IH.
Qed.

(** X18. For a manager class whose relation list is empty: a record that
    is inserted and then deleted leaves every collection as it was
    before the insertion.  The record is still there in memory, with the
    identifier the insertion gave it. *)
Theorem insert_then_delete_restores (fuel : nat) (cls : ManagerClass) (model : loc)
    (include exclude : option (gset string)) (w : World) (h : string) (i : instance) :
  let doc := model_dict i include (effective_exclude include exclude) in
  let stored := with_assigned_id doc (next_oid w) in
  let id := default VNone (stored !! "_id") in
  objs (heap w) !! model = Some i ->
  resolves w cls h ->
  relation_map_of w cls = [] ->
  Forall (eq false) (take 2 (faults (store w))) ->
  Forall (fun d => default VNone (d !! "_id") <> id) (collection_docs w h) ->
  exists w1 w2,
    Manager.insert cls model include exclude w = (Ok {| inserted_id := id |}, w1)
    /\ collection_docs w1 h = collection_docs w h ++ [stored]
    /\ Manager.delete (S fuel) cls model w1 = (Ok {| deleted_count := 1 |}, w2)
    /\ (forall h', collection_docs w2 h' = collection_docs w h')
    /\ objs (heap w2) !! model = Some (with_id i id)
    /\ log w2 = log w ++ [EvInsertOne h stored; EvDeleteOne h {[ "_id" := CEq id ]}].
Proof.
  intros doc stored id Hobj Hres Hrel Hfaults Hfresh.
  assert (Hsid : stored !! "_id" = Some id).
  { unfold id, stored, with_assigned_id.
    destruct (doc !! "_id") as [v|] eqn:Hv; [by rewrite Hv|by rewrite lookup_insert_eq]. }
  assert (Hn : next_call_succeeds w).
  { unfold next_call_succeeds.
    destruct (faults (store w)) as [|[] ?]; cbn in *; [done| |done].
    apply Forall_cons in Hfaults as [? _]. done. }
  destruct (insert_runs cls model include exclude w h i)
    as (w1 & Hins & Hlog1 & Hdb1 & Hobjs1 & Hdicts1 & Hcls1 & Hget1 & Hfl1); try done.
  { eapply Forall_impl; [exact Hfresh|]. intros d Hd. cbn in Hd.
    fold doc stored. rewrite Hsid. intros Heq. rewrite Heq in Hd. done. }
  fold doc stored id in Hins, Hlog1, Hdb1, Hobjs1.
  assert (Hn1 : next_call_succeeds w1).
  { unfold next_call_succeeds. rewrite Hfl1.
    destruct (faults (store w)) as [|? [|[] ?]]; cbn in *; try done.
    apply Forall_cons in Hfaults as [_ Hf]. apply Forall_cons in Hf as [? _]. done. }
  assert (Hdocs1 : collection_docs w1 h = collection_docs w h ++ [stored]).
  { unfold collection_docs at 1. by rewrite Hdb1, lookup_insert_eq. }
  assert (Hrel1 : relation_map_of w1 cls = []).
  { unfold relation_map_of in *. by rewrite Hcls1. }
  assert (Hres1 : resolves w1 cls h).
  { unfold resolves in *. by rewrite Hget1. }
  assert (Hmodel1 : objs (heap w1) !! model = Some (with_id i id)).
  { by rewrite Hobjs1, lookup_insert_eq. }
  destruct (driver_call_runs (EvDeleteOne h {[ "_id" := CEq id ]}) w1 Hn1)
    as (w1' & Hcall & Hlog' & Hdb' & Hget' & _ & Hheap' & Hcls' & _).
  assert (Hnone : Forall (fun d => matches {[ "_id" := CEq id ]} d = false)
                    (collection_docs w h)).
  { eapply Forall_impl; [exact Hfresh|]. intros d Hd. cbn in Hd.
    destruct (matches _ d) eqn:Hm; [|done]. by apply matches_singleton in Hm. }
  assert (Hlast : matches {[ "_id" := CEq id ]} stored = true).
  { apply matches_singleton. by rewrite Hsid. }
  eexists w1, _. split; [exact Hins|]. split; [exact Hdocs1|].
  rewrite delete_unfold, Hrel1. cbn [for_each].
  erewrite bind_ok by reflexivity.
  unfold Manager.delete_document.
  erewrite bind_ok by (by apply get_collection_resolves).
  erewrite bind_ok; cycle 1.
  { unfold getattr, bind, read_obj, ret. rewrite Hmodel1. cbn.
    rewrite lookup_insert_eq. reflexivity. }
  unfold coll_delete_one. erewrite bind_ok by exact Hcall.
  assert (Hd1' : collection_docs w1' h = collection_docs w h ++ [stored]).
  { unfold collection_docs in *. by rewrite Hdb'. }
  unfold get_docs, set_docs, bind, ret, modify. rewrite Hd1'.
  rewrite find_app_last by done. rewrite delete_first_app_last by done.
  split; [reflexivity|]. cbn.
  split.
  { intros h'. unfold collection_docs. cbn. rewrite Hdb', Hdb1.
    rewrite insert_insert_eq.
    destruct (decide (h' = h)) as [->|Hne].
    - by rewrite lookup_insert_eq.
    - by rewrite lookup_insert_ne. }
  split; [by rewrite Hheap'|].
  unfold log in *. cbn. rewrite Hlog', Hlog1. by rewrite <- app_assoc.
Qed.

(** ** A record that is its own child *)

Lemma map_M_parse_runs (c : ModelClass) (docs : list document) :
  Forall (fun doc => is_Some (doc !! "_id") /\ is_Some (parsed c doc)) docs ->
  forall w, exists ls w1, map_M (parse_obj c) docs w = (Ok ls, w1).
Proof.
  induction 1 as [|doc docs [Hid [i Hp]] _ IH]; intros w; cbn [map_M].
  - by exists [], w.
  - unfold bind at 1. rewrite parse_obj_stored, Hp by done. unfold alloc_obj.
    destruct (IH (with_heap (with_objs (<[fresh (dom (objs (heap w))) := i]>
                               (objs (heap w))) (heap w)) w)) as (ls & w1 & Hrun).
    erewrite bind_ok by exact Hrun. by eexists _, _.
Qed.

(** What [find_all] does when the driver call goes through and every
    matching document validates. *)
Lemma find_all_runs (self : manager) (w : World) (h : string) (d : pyfilter) :
  dicts (heap w) !! document_filter self = Some d ->
  resolves w (m_class self) h ->
  next_call_succeeds w ->
  Forall (fun doc => is_Some (doc !! "_id")
                     /\ is_Some (parsed (manager_model (m_class self)) doc))
    (List.filter (matches d) (collection_docs w h)) ->
  exists ls w',
    Manager.find_all self w = (Ok ls, w')
    /\ Forall2 (fun l doc => exists i, parsed (manager_model (m_class self)) doc = Some i
                                       /\ objs (heap w') !! l = Some i)
         ls (List.filter (matches d) (collection_docs w h))
    /\ db (store w') = db (store w)
    /\ getter (store w') = getter (store w)
    /\ faults (store w') = tail (faults (store w))
    /\ classes w' = classes w.
Proof.
  intros Hd Hres Hn Hall. unfold Manager.find_all.
  erewrite bind_ok by (by apply get_collection_resolves).
  erewrite bind_ok by (unfold read_dict; rewrite Hd; reflexivity).
  destruct (driver_call_runs (EvFind h d) w Hn)
    as (w1 & Hcall & Hlog & Hdb & Hget & Hfl & Hheap & Hcls & _).
  assert (Hfind : coll_find h d w
                  = (Ok (List.filter (matches d) (collection_docs w h)), w1)).
  { unfold coll_find. erewrite bind_ok by exact Hcall.
    unfold get_docs, bind, ret, collection_docs. by rewrite Hdb. }
  erewrite bind_ok by exact Hfind.
  destruct (map_M_parse_runs _ _ Hall w1) as (ls & w2 & Hrun).
  exists ls, w2. split; [exact Hrun|].
  apply map_M_parse_ok in Hrun as (Hall2 & _ & _ & _ & Hs & _ & Hc).
  2:{ eapply Forall_impl; [exact Hall|]. by intros ? [? _]. }
  rewrite Hs, Hc. done.
Qed.

(** X19. The cascade does not guard against a record that is its own
    child.  When the first edge of the relation list leads from the
    manager's model class back to it, and the first document the query
    of that edge finds for a record carries the same key as the record
    (as does the document of a record that refers to itself), the
    deletion of the record never gets to a [delete_one]: however deep
    the recursion is let go, it is still fetching, and no document has
    been removed. *)
Theorem delete_never_completes_on_self_reference (cls : ManagerClass) (e : Edge)
    (es : list Edge) (h : string) (v : value) (doc : document) (docs : list document)
    (child : instance) (fuel : nat) (model : loc) (w : World) (i : instance) :
  relation_map_of w cls = e :: es ->
  e_model_cls e = manager_model cls ->
  class_manager (model_manager (classes w)) (manager_model cls) = Some cls ->
  resolves w cls h ->
  Forall (eq false) (faults (store w)) ->
  objs (heap w) !! model = Some i ->
  i_fields i !! e_model_field_name e = Some v ->
  List.filter (matches {[ e_field_name e := CEq v ]}) (collection_docs w h) = doc :: docs ->
  Forall (fun d => is_Some (d !! "_id") /\ is_Some (parsed (manager_model cls) d))
    (doc :: docs) ->
  parsed (manager_model cls) doc = Some child ->
  i_fields child !! e_model_field_name e = Some v ->
  exists w',
    Manager.delete fuel cls model w = (OutOfFuel, w')
    /\ db (store w') = db (store w).
Proof.
  intros Hrel Hself Hmgr (func & Hg & Hf) Hfaults Hobj Hv Hfound Hall Hchild Hcv.
  revert model w i Hrel Hmgr Hg Hfaults Hobj Hv Hfound.
  induction fuel as [|fuel IH]; intros model w i Hrel Hmgr Hg Hfaults Hobj Hv Hfound.
  { by exists w. }
  rewrite delete_unfold, Hrel. cbn [for_each].
  assert (Hres : resolves w cls h) by (by exists func).
  (* the query of the first edge *)
  destruct (alloc_dict_runs {[ e_field_name e := CEq v ]} w)
    as (l & w1 & Halloc & _ & Hdicts1 & Hobjs1 & Hcls1 & Hs1 & _).
  set (m := {| m_class := cls; document_filter := l |}).
  assert (Hl : dicts (heap w1) !! l = Some {[ e_field_name e := CEq v ]}).
  { by rewrite Hdicts1, lookup_insert_eq. }
  destruct (find_all_runs m w1 h {[ e_field_name e := CEq v ]})
    as (ls & w2 & Hrun & Hrecs & Hdb2 & Hget2 & Hfl2 & Hcls2); try done.
  { exists func. by rewrite Hs1. }
  { unfold next_call_succeeds. rewrite Hs1.
    destruct (faults (store w)) as [|[] ?]; cbn; try done.
    apply Forall_cons in Hfaults as [? _]. done. }
  { unfold collection_docs. rewrite Hs1. fold (collection_docs w h). by rewrite Hfound. }
  unfold collection_docs in Hrecs. rewrite Hs1 in Hrecs.
  fold (collection_docs w h) in Hrecs. rewrite Hfound in Hrecs.
  destruct ls as [|p ps]; [by apply Forall2_nil_cons_inv in Hrecs|].
  apply Forall2_cons_1 in Hrecs as [(i' & Hi' & Hp) _].
  cbn [m_class m] in Hi'. rewrite Hchild in Hi'. injection Hi' as <-.
  assert (Hrelated : Manager.related_objs model e w = (Ok (p :: ps), w2)).
  { unfold Manager.related_objs.
    erewrite bind_ok; cycle 1.
    { unfold manager_of, bind, get, ret. rewrite Hself, Hmgr. reflexivity. }
    erewrite bind_ok; cycle 1.
    { unfold getattr, bind, read_obj, ret. rewrite Hobj, Hv. reflexivity. }
    erewrite bind_ok by exact Halloc.
    erewrite bind_ok; cycle 1.
    { unfold Manager.init. erewrite bind_ok by (unfold read_dict; rewrite Hl; reflexivity).
      rewrite decide_False; [reflexivity|].
      intros Heq. apply (f_equal (fun x => x !! e_field_name e)) in Heq.
      by rewrite lookup_singleton_eq, lookup_empty in Heq. }
    exact Hrun. }
  (* the deletion of the first record found *)
  assert (Hclass : i_class child = manager_model cls).
  { unfold parsed in Hchild. repeat case_match; simplify_eq. done. }
  destruct (IH p w2 child) as (w3 & Hdel & Hdb3).
  { unfold relation_map_of in *. by rewrite Hcls2, Hcls1. }
  { by rewrite Hcls2, Hcls1. }
  { by rewrite Hget2, Hs1. }
  { rewrite Hfl2, Hs1. destruct (faults (store w)); cbn; [done|].
    by apply Forall_cons in Hfaults as [_ ?]. }
  { done. }
  { done. }
  { unfold collection_docs. rewrite Hdb2, Hs1. exact Hfound. }
  assert (Hfirst : Model_delete fuel p w2 = (OutOfFuel, w3)).
  { unfold Model_delete.
    erewrite bind_ok by (unfold read_obj; rewrite Hp; reflexivity).
    erewrite bind_ok; cycle 1.
    { unfold manager_of, bind, get, ret. rewrite Hclass, Hcls2, Hcls1, Hmgr. reflexivity. }
    by erewrite bind_out_of_fuel by exact Hdel. }
  exists w3. split.
  - erewrite bind_out_of_fuel; [reflexivity|].
    erewrite bind_out_of_fuel; [reflexivity|].
    unfold Manager.cascade_edge. erewrite bind_ok by exact Hrelated.
    cbn [for_each]. by erewrite bind_out_of_fuel by exact Hfirst.
  - by rewrite Hdb3, Hdb2, Hs1.
Qed.

(** ** The further properties at work on the application *)

Lemma validate_str_round_trip_witness :
  ObjectId_str 101%N = "000000000000000000000065"
  /\ PyObjectId_validate (VStr (ObjectId_str 101%N)) = Some 101%N.
Proof.
  split; [vm_compute; reflexivity|].
  apply (validate_str_round_trip 101%N). vm_compute. reflexivity.
Defined.


Lemma insert_then_find_one_witness :
  exists w1 w2 p,
    Manager.insert App.UserModelManager 1%positive None None Scene.desk
      = (Ok {| inserted_id := VOid 1 |}, w1)
    /\ objs (heap w1) !! 1%positive = Some (with_id App.new_user (VOid 1))
    /\ Manager.find_one App.users [AVal (VOid 1)] true w1 = (Ok (Some p), w2)
    /\ p <> 1%positive
    /\ objs (heap w2) !! 1%positive = Some (with_id App.new_user (VOid 1))
    /\ objs (heap w2) !! p
       = Some {| i_class := App.User;
                 i_fields := i_fields (with_id App.new_user (VOid 1));
                 i_cache := ∅ |}.
Proof.
  apply (insert_then_find_one App.UserModelManager 1%positive App.users Scene.desk
           "users" App.new_user); concrete.
  split; [reflexivity|].
  exists 7%N, {[ "name" := VStr "x" ]}, {[ "name" := VStr "x" ]}. by_running.
Defined.


Lemma find_all_gives_new_records_witness :
  let w' := App.exec (Manager.find_all App.users) App.session in
  Forall2 (fun l doc => exists i, parsed App.User doc = Some i
                                  /\ objs (heap w') !! l = Some i)
    [1%positive] (List.filter (matches ∅) (collection_docs App.session "users"))
  /\ NoDup [1%positive]
  /\ Forall (fun l => objs (heap App.session) !! l = None) [1%positive]
  /\ (forall l i, objs (heap App.session) !! l = Some i -> objs (heap w') !! l = Some i)
  /\ db (store w') = db (store App.session)
  /\ log w' = log App.session ++ [EvFind "users" ∅]
  /\ (Manager.count App.users App.session).1 = Ok (length [1%positive]).
Proof.
  apply (find_all_gives_new_records App.users App.session "users" ∅ [1%positive]
           (App.exec (Manager.find_all App.users) App.session)); concrete.
Defined.


Lemma insert_failure_leaves_record_witness :
  let w' := App.exec (Manager.insert App.UserModelManager 1%positive
                        (Some {[ "id"; "name" ]}) None) App.loaded in
  heap w' = heap App.loaded /\ db (store w') = db (store App.loaded)
  /\ classes w' = classes App.loaded.
Proof.
  apply (insert_failure_leaves_record App.UserModelManager 1%positive
           (Some {[ "id"; "name" ]}) None App.loaded DuplicateKeyError).
  vm_compute. reflexivity.
Defined.

Lemma update_overwrites_selected_fields_witness :
  let set := model_dict Scene.edited None (effective_exclude None None) in
  let c1 := App.doc [("_id", VOid 201); ("user_id", VOid 101); ("text", VStr "C1")] in
  let c2 := App.doc [("_id", VOid 202); ("user_id", VOid 101); ("text", VStr "C2")] in
  (forall k v, set !! k = Some v
     <-> exists name, k = alias name /\ i_fields Scene.edited !! name = Some v
                      /\ kept None None name)
  /\ (forall k, set !! k = None -> (set ∪ c2) !! k = c2 !! k)
  /\ default VNone ((set ∪ c2) !! "_id") = VOid 202
  /\ exists w',
       Manager.update App.MessageModelManager 1%positive None None Scene.editing
         = (Ok {| matched_count := 1;
                  modified_count := if decide (set ∪ c2 = c2) then 0 else 1 |}, w')
       /\ collection_docs w' "messages" = [c1] ++ (set ∪ c2) :: []
       /\ (forall h', h' <> "messages"
             -> collection_docs w' h' = collection_docs Scene.editing h')
       /\ heap w' = heap Scene.editing
       /\ log w' = log Scene.editing
                   ++ [EvUpdateOne "messages" {[ "_id" := CEq (VOid 202) ]} set].
Proof.
  apply (update_overwrites_selected_fields App.MessageModelManager 1%positive None None
           Scene.editing "messages" Scene.edited (VOid 202)
           [App.doc [("_id", VOid 201); ("user_id", VOid 101); ("text", VStr "C1")]] []
           (App.doc [("_id", VOid 202); ("user_id", VOid 101); ("text", VStr "C2")]));
    concrete.
Defined.

Lemma second_relation_replaces_accessors_witness :
  exists w',
    (Manager.relation_map App.UserModelManager "sender_id" "id" App.Message ;;
     Manager.relation_map App.UserModelManager "recipient_id" "id" App.Message) App.declared
      = (Ok App.Message, w')
    /\ relation_map_of w' App.UserModelManager
       = relation_map_of App.declared App.UserModelManager
         ++ [{| e_model_cls := App.Message; e_field_name := "sender_id";
                e_model_field_name := "id" |};
             {| e_model_cls := App.Message; e_field_name := "recipient_id";
                e_model_field_name := "id" |}]
    /\ model_attr (model_attrs (classes w')) App.Message
         (lower (replace "ModelManager" "" (manager_name App.UserModelManager)))
       = Some (obj App.UserModelManager "recipient_id"
                 (lower (replace "ModelManager" "" (manager_name App.UserModelManager))))
    /\ manager_attrs (classes w')
         !! (manager_name App.MessageModelManager,
             "by_" +:+ lower (replace "ModelManager" "" (manager_name App.UserModelManager)))
       = Some (by_related_obj "recipient_id")
    /\ ((model_name (manager_model App.UserModelManager),
         lower (model_name App.Message) +:+ "_set")
          <> (model_name App.Message,
              lower (replace "ModelManager" "" (manager_name App.UserModelManager))) ->
        model_attr (model_attrs (classes w')) (manager_model App.UserModelManager)
          (lower (model_name App.Message) +:+ "_set")
        = Some (related_model_set App.Message "recipient_id" "id")).
Proof.
  apply (second_relation_replaces_accessors App.UserModelManager "sender_id" "id"
           "recipient_id" "id" App.Message App.declared App.MessageModelManager).
  vm_compute. reflexivity.
Defined.

Lemma manager_subclass_takes_over_model_witness :
  let sub := ManagerSub "AdminModelManager" Scene.admin_body App.UserModelManager in
  exists w',
    ModelManagerMeta_new sub App.registered = (Ok sub, w')
    /\ manager_of (manager_model App.UserModelManager) w' = (Ok sub, w')
    /\ relation_map_of w' sub
       = (if b_relation_map Scene.admin_body then []
          else relation_map_of App.registered App.UserModelManager)
    /\ manager_collection sub
       = default (manager_collection App.UserModelManager) (b_collection Scene.admin_body)
    /\ heap w' = heap App.registered /\ store w' = store App.registered.
Proof.
  apply (manager_subclass_takes_over_model "AdminModelManager" Scene.admin_body
           App.UserModelManager App.registered).
  reflexivity.
Defined.

Lemma cached_parent_is_never_refreshed_witness :
  collection_docs Scene.given_away "users" = []
  /\ call_reverse 1%positive "user" Scene.given_away = (Ok (Some 2%positive), Scene.given_away).
Proof.
  split; [vm_compute; reflexivity|].
  apply (cached_parent_is_never_refreshed 1%positive "user" App.reading App.message_C1
           App.UserModelManager "user_id" "user" (Some 2%positive) Scene.read_once
           Scene.cached Scene.given_away Scene.moved); vm_compute; reflexivity.
Defined.

Lemma init_shares_nonempty_dict_witness :
  exists m w',
    Manager.init App.UserModelManager (Some 1%positive) Scene.asking = (Ok m, w')
    /\ m_class m = App.UserModelManager
    /\ dicts (heap w') !! document_filter m = Some Scene.by_name
    /\ let w2 := (Manager.find_one m (AVal (VOid 101) :: []) true w').2 in
       if decide (Scene.by_name = ∅)
       then document_filter m <> 1%positive /\ dicts (heap w2) !! 1%positive = Some ∅
       else document_filter m = 1%positive /\ w' = Scene.asking
            /\ dicts (heap w2) !! 1%positive
               = Some (<["_id" := CEq (VOid 101)]> Scene.by_name).
Proof.
  apply (init_shares_nonempty_dict App.UserModelManager 1%positive Scene.by_name
           Scene.asking 101%N [] true).
  vm_compute. reflexivity.
Defined.

Lemma by_parent_counts_children_witness :
  exists m w1 w2,
    call_by_related_obj "user_id" Scene.messages (inl (VOid 101)) Scene.inbox = (Ok m, w1)
    /\ m_class m = m_class Scene.messages
    /\ document_filter m <> document_filter Scene.messages
    /\ dicts (heap w1) !! document_filter m = Some (<["user_id" := CEq (VOid 101)]> ∅)
    /\ dicts (heap w1) !! document_filter Scene.messages = Some ∅
    /\ Manager.count m w1
       = (Ok (length (List.filter
                        (fun doc => cond_holds (CEq (VOid 101)) (doc !! "user_id")
                                    && matches (base.delete "user_id" ∅) doc)
                        (collection_docs Scene.inbox "messages"))), w2)
    /\ log w2 = log Scene.inbox ++ [EvCount "messages" (<["user_id" := CEq (VOid 101)]> ∅)].
Proof.
  apply (by_parent_counts_children "user_id" Scene.messages (inl (VOid 101)) Scene.inbox
           "messages" ∅); concrete.
Defined.

Lemma insert_then_delete_restores_witness :
  let doc := model_dict App.new_user None (effective_exclude None None) in
  let stored := with_assigned_id doc (next_oid Scene.plain) in
  let id := default VNone (stored !! "_id") in
  exists w1 w2,
    Manager.insert App.UserModelManager 1%positive None None Scene.plain
      = (Ok {| inserted_id := id |}, w1)
    /\ collection_docs w1 "users" = collection_docs Scene.plain "users" ++ [stored]
    /\ Manager.delete 1 App.UserModelManager 1%positive w1 = (Ok {| deleted_count := 1 |}, w2)
    /\ (forall h', collection_docs w2 h' = collection_docs Scene.plain h')
    /\ objs (heap w2) !! 1%positive = Some (with_id App.new_user id)
    /\ log w2 = log Scene.plain
                ++ [EvInsertOne "users" stored; EvDeleteOne "users" {[ "_id" := CEq id ]}].
Proof.
  apply (insert_then_delete_restores 0 App.UserModelManager 1%positive None None
           Scene.plain "users" App.new_user); concrete.
Defined.

Lemma delete_never_completes_on_self_reference_witness :
  exists w',
    Manager.delete 1000 App.UserModelManager 1%positive Scene.looped = (OutOfFuel, w')
    /\ db (store w') = db (store Scene.looped).
Proof.
  apply (delete_never_completes_on_self_reference App.UserModelManager Scene.referrals []
           "users" (VOid 101) Scene.own_referrer [] App.user_P 1000 1%positive
           Scene.looped App.user_P); concrete.
Defined.
